(** * htmx-r: scroll / observation coordination

    A shallow embedding of [js/htmx-r-observer.js] ([HtmxRObserver]) and of
    the docs navigation of the scroll utilities ([HtmxRScroll.initDocsNav]),
    together with the properties of the suppression window, of the
    section-change callback and of the active-link marking.

    Conventions of the embedding.
    - A JavaScript closure is a record of its mutable variables; a method is
      a function from the record to the record.
    - A call that may throw returns a [completion]: the state reached, and
      whether the call returned or threw there.
    - The host (timers, clock, IntersectionObserver delivery, clicks) is an
      explicit sequence of events fed to a total [step] function.
    - Strings are sequences of code units; times are integral milliseconds;
      lengths in pixels and offsets are numbers of JavaScript, that is,
      binary64 floating-point numbers with their own arithmetic. *)

From Stdlib Require Import PrimFloat.
From Stdlib Require Import ZArith String Ascii List Bool Lia.
From stdpp Require Import base list strings.
Import ListNotations.

Local Open Scope string_scope.
Local Open Scope list_scope.

(** ** Completions *)

Inductive exn : Type :=
| TypeError
| SyntaxError
| InvalidCharacterError.

(** [Normal a]: the call returned in state [a].  [Throw e a]: the call threw
    [e]; the mutations made before the throw are kept in [a]. *)
Inductive completion (A : Type) : Type :=
| Normal (a : A)
| Throw (e : exn) (a : A).

Arguments Normal {A} a.
Arguments Throw {A} e a.

Definition state_of {A} (c : completion A) : A :=
  match c with
  | Normal a => a
  | Throw _ a => a
  end.

Definition returned {A} (c : completion A) : bool :=
  match c with
  | Normal _ => true
  | Throw _ _ => false
  end.

Definition andThen {A} (c : completion A) (k : A -> completion A) : completion A :=
  match c with
  | Normal a => k a
  | Throw e a => Throw e a
  end.

Infix ">>=" := andThen (at level 60, right associativity).

(** [Array.prototype.forEach] / [NodeList.prototype.forEach] with a body that
    acts on the state: the walk stops at the first throw. *)
Fixpoint forEach {A S} (xs : list A) (body : A -> S -> completion S) (s : S)
  : completion S :=
  match xs with
  | [] => Normal s
  | x :: rest => body x s >>= forEach rest body
  end.

(** ** Elements and intersection entries *)

(** An element of the document: its node identity, its tag, its [id]
    attribute ([None] when the attribute is absent) and the [top] of its
    bounding client rectangle, in pixels from the top of the viewport, as
    the page is scrolled. *)
Record Element : Type := mkElement {
  el_node : nat;
  el_tag : string;
  el_id : option string;
  el_top : float
}.

(** One IntersectionObserverEntry. *)
Record Entry : Type := mkEntry {
  target : Element;
  isIntersecting : bool
}.

(** The conversion of an integral number to the IDL type [long]: wrap-around
    to the signed 32-bit range. *)
Definition toInt32 (z : Z) : Z :=
  ((z + 2 ^ 31) mod 2 ^ 32 - 2 ^ 31)%Z.

(** Whether [`-${offset}px 0px -66% 0px`] is a root margin that
    [new IntersectionObserver] accepts.  The text of a finite number that
    is not negative, or of the negative zero, is a CSS number, so that the
    first component is a length in pixels; the text of a negative number
    starts with a second minus sign, and [NaN] and [Infinity] are no
    numbers of CSS. *)
Definition rootMargin_parses (offset : float) : bool :=
  PrimFloat.leb 0 offset && PrimFloat.ltb offset infinity.

(** ** The closure of [createSectionObserver] *)

Record Timer : Type := mkTimer {
  t_handle : nat;
  t_due : Z
}.

Section SectionObserver.

(** [U] is the state the section-change callback acts on.  The callback
    receives the [id] attribute of the target ([None] for [null]); it may
    throw, and it does not call back into the observer. *)
Context {U : Type}.

Definition Callback : Type := option string -> U -> completion U.

(** The options [createSectionObserver] reads.  [offset] shapes the root
    margin handed to the IntersectionObserver: the constructor rejects a
    margin it cannot parse, and otherwise the margin only decides which
    entries the platform reports, which are the [Visibility] events below.
    [navLinks] is not used and is left out. *)
Record Options : Type := mkOptions {
  sections : option (list Element);          (* undefined when omitted *)
  offset : option float;                     (* default 120 *)
  onSectionChange : option Callback;         (* undefined when omitted *)
  disableDuringScroll : option bool          (* default true *)
}.

(** The variables captured by the observer callback and by [setScrolling],
    the part of the host they talk to (clock, pending timers of this
    closure, observation targets), and the state of the page the callback
    acts on.  [calls] is a ghost log of the arguments [onSectionChange]
    was invoked with, oldest first. *)
Record Closure : Type := mkClosure {
  cfg_onSectionChange : option Callback;
  cfg_disableDuringScroll : bool;
  isScrolling : bool;
  scrollTimeout : option nat;
  observed : list Element;
  now : Z;
  next_handle : nat;
  timers : list Timer;
  calls : list (option string);
  page : U
}.

Definition set_isScrolling (b : bool) (w : Closure) : Closure :=
  mkClosure (cfg_onSectionChange w) (cfg_disableDuringScroll w) b
    (scrollTimeout w) (observed w) (now w) (next_handle w) (timers w)
    (calls w) (page w).

Definition set_scrollTimeout (h : option nat) (w : Closure) : Closure :=
  mkClosure (cfg_onSectionChange w) (cfg_disableDuringScroll w) (isScrolling w)
    h (observed w) (now w) (next_handle w) (timers w) (calls w) (page w).

Definition set_timers (n : nat) (ts : list Timer) (w : Closure) : Closure :=
  mkClosure (cfg_onSectionChange w) (cfg_disableDuringScroll w) (isScrolling w)
    (scrollTimeout w) (observed w) (now w) n ts (calls w) (page w).

Definition set_now (t : Z) (w : Closure) : Closure :=
  mkClosure (cfg_onSectionChange w) (cfg_disableDuringScroll w) (isScrolling w)
    (scrollTimeout w) (observed w) t (next_handle w) (timers w) (calls w)
    (page w).

Definition set_page (cs : list (option string)) (u : U) (w : Closure) : Closure :=
  mkClosure (cfg_onSectionChange w) (cfg_disableDuringScroll w) (isScrolling w)
    (scrollTimeout w) (observed w) (now w) (next_handle w) (timers w) cs u.

(** *** Host timers *)

(** [setTimeout(() => { isScrolling = false }, delay)]: the delay is read as
    a signed 32-bit integer, a negative delay counts as zero, and the handle
    is fresh. *)
Definition setTimeout (delay : Z) (w : Closure) : nat * Closure :=
  let h := next_handle w in
  (h, set_timers (S h)
        (timers w ++ [mkTimer h (now w + Z.max 0 (toInt32 delay))%Z]) w).

Definition cancel (h : nat) (ts : list Timer) : list Timer :=
  List.filter (fun t => negb (Nat.eqb (t_handle t) h)) ts.

(** [clearTimeout(handle)]: nothing happens for [undefined] or for a handle
    that is no longer pending. *)
Definition clearTimeout (h : option nat) (w : Closure) : Closure :=
  match h with
  | None => w
  | Some h => set_timers (next_handle w) (cancel h (timers w)) w
  end.

(** *** [setScrolling] *)

Definition setScrolling (state : bool) (duration : option Z) (w : Closure)
  : Closure :=
  let duration := default 1000%Z duration in
  let w := set_isScrolling state w in
  let w := clearTimeout (scrollTimeout w) w in
  if state then
    let '(h, w) := setTimeout duration w in
    set_scrollTimeout (Some h) w
  else w.

(** *** The IntersectionObserver callback *)

Definition on_entry (entry : Entry) (w : Closure) : completion Closure :=
  if isIntersecting entry then
    let id := el_id (target entry) in
    match cfg_onSectionChange w with
    | Some f =>
        match f id (page w) with
        | Normal u => Normal (set_page (calls w ++ [id]) u w)
        | Throw e u => Throw e (set_page (calls w ++ [id]) u w)
        end
    | None => Normal w
    end
  else Normal w.

Definition observer_callback (entries : list Entry) (w : Closure)
  : completion Closure :=
  if cfg_disableDuringScroll w && isScrolling w then Normal w
  else forEach entries on_entry w.

(** *** [createSectionObserver] *)

(** [observer.observe(target)]: a target already observed is not added
    again. *)
Definition observe (tgt : Element) (obs : list Element) : list Element :=
  if existsb (fun e => Nat.eqb (el_node e) (el_node tgt)) obs then obs
  else obs ++ [tgt].

(** The closure as [createSectionObserver] leaves it, on a page in state
    [u] at time [t].  [new IntersectionObserver] comes first and throws a
    SyntaxError for a root margin it cannot parse; omitting [sections]
    then makes [sections.forEach] throw. *)
Definition createSectionObserver (options : Options) (t : Z) (u : U)
  : exn + Closure :=
  if rootMargin_parses (default 120%float (offset options)) then
    match sections options with
    | None => inl TypeError
    | Some secs =>
        inr (mkClosure (onSectionChange options)
               (default true (disableDuringScroll options))
               false None
               (fold_left (fun obs s => observe s obs) secs [])
               t 1 [] [] u)
    end
  else inl SyntaxError.

(** *** Events of the host *)

Inductive event : Type :=
| Visibility (entries : list Entry)                    (* a batch is delivered *)
| SetScrolling (state : bool) (duration : option Z)    (* the page calls setScrolling *)
| Expire (h : nat)                                     (* timer [h] runs *)
| Elapse (dt : N).                                     (* [dt] ms pass *)

Definition due (h : nat) (w : Closure) : bool :=
  existsb (fun t => Nat.eqb (t_handle t) h && (t_due t <=? now w)%Z) (timers w).

(** A timer runs no earlier than its due time, and at most once; an
    [Expire] for a timer that is not pending or not yet due is not an event
    of the host and changes nothing. *)
Definition expire (h : nat) (w : Closure) : Closure :=
  if due h w then
    set_isScrolling false (set_timers (next_handle w) (cancel h (timers w)) w)
  else w.

(** An exception that escapes a callback is reported by the host; the
    mutations made before it stay. *)
Definition step (e : event) (w : Closure) : Closure :=
  match e with
  | Visibility entries => state_of (observer_callback entries w)
  | SetScrolling state duration => setScrolling state duration w
  | Expire h => expire h w
  | Elapse dt => set_now (now w + Z.of_N dt)%Z w
  end.

Definition run (es : list event) (w : Closure) : Closure :=
  fold_left (fun w e => step e w) es w.

(** The time that passes during a sequence of events. *)
Definition elapsed (es : list event) : Z :=
  fold_right (fun e acc => match e with
                           | Elapse dt => (Z.of_N dt + acc)%Z
                           | _ => acc
                           end) 0%Z es.

(** The page does not call [setScrolling] during the sequence. *)
Definition no_setScrolling (es : list event) : bool :=
  forallb (fun e => match e with
                    | SetScrolling _ _ => false
                    | _ => true
                    end) es.

Definition is_visibility (e : event) : bool :=
  match e with
  | Visibility _ => true
  | _ => false
  end.

(** What the platform promises of a delivery: every entry reports on a
    target the observer is watching. *)
Definition targets_observed (obs : list Element) (e : event) : Prop :=
  match e with
  | Visibility entries => Forall (fun en => In (target en) obs) entries
  | _ => True
  end.

(** The identifiers of the qualifying (intersecting) entries of a batch,
    in batch order. *)
Definition qualifying (entries : list Entry) : list (option string) :=
  map (fun en => el_id (target en)) (List.filter isIntersecting entries).

(** The callback invoked with each identifier in turn, until an invocation
    throws: the state of the page that results. *)
Fixpoint invoke_all (f : Callback) (ids : list (option string)) (u : U)
  : completion U :=
  match ids with
  | [] => Normal u
  | id :: rest => f id u >>= invoke_all f rest
  end.

(** How many of the identifiers the callback is invoked with on that way:
    all of them if every invocation returns, else those up to the one on
    which it throws, that one included. *)
Fixpoint attempted (f : Callback) (ids : list (option string)) (u : U) : nat :=
  match ids with
  | [] => 0
  | id :: rest =>
      S (match f id u with
         | Normal u' => attempted f rest u'
         | Throw _ _ => 0
         end)
  end.

End SectionObserver.

Arguments Options : clear implicits.
Arguments Closure : clear implicits.
Arguments Callback : clear implicits.

(** ** Notions used to state the properties of the closure *)

Section ClosureNotions.

Context {U : Type}.
Implicit Types (w : Closure U).

(** The timer table of the closure holds at most the timer named by
    [scrollTimeout], and it holds one exactly while [isScrolling] is set. *)
Definition wf w : Prop :=
  match timers w with
  | [] => isScrolling w = false
  | [t] => isScrolling w = true
           /\ scrollTimeout w = Some (t_handle t)
           /\ t_handle t < next_handle w
  | _ :: _ :: _ => False
  end.

(** What the suppression mechanism shows of itself: the flag and the due
    times of the pending expiries. *)
Definition suppression_state w : bool * list Z :=
  (isScrolling w, map t_due (timers w)).

(** The delay [setScrolling(true, duration)] hands to the host. *)
Definition delay_of (duration : option Z) : Z :=
  Z.max 0 (toInt32 (default 1000%Z duration)).

(** [w'] differs from [w] in the page and in the log at most. *)
Definition frame w w' : Prop :=
  isScrolling w' = isScrolling w /\ timers w' = timers w
  /\ scrollTimeout w' = scrollTimeout w /\ next_handle w' = next_handle w
  /\ now w' = now w /\ observed w' = observed w
  /\ cfg_disableDuringScroll w' = cfg_disableDuringScroll w
  /\ cfg_onSectionChange w' = cfg_onSectionChange w.

(** Handles are issued in increasing order: from a state whose pending
    timers and next handle are at or above [k], no later state holds a
    timer below [k]. *)
Definition handles_from (k : nat) w : Prop :=
  Forall (fun t => k <= t_handle t) (timers w) /\ k <= next_handle w.

End ClosureNotions.

(** ** The docs page *)

(** A sidebar link: its [href] attribute ([None] when absent) and the tokens
    of its class list. *)
Record NavLink : Type := mkNavLink {
  href : option string;
  classList : list string
}.

(** What the two docs helpers see of the document.  [navLinks] are the
    elements matched by the sidebar selector, in document order; both helpers
    take this list once, at initialisation, and the model covers a page whose
    sidebar is not rebuilt afterwards, so that the list taken and the links
    the selector engine finds later are the same elements.  [elements] are
    the elements of the document, in document order.  [pageYOffset] and
    the tops of the elements are what the page reports when a helper
    reads them; a smooth scroll moves the page later, and the model does
    not follow it: [scrolls] is a ghost log of the [top] of each
    [window.scrollTo] issued. *)
Record Page : Type := mkPage {
  navLinks : list NavLink;
  elements : list Element;
  pageYOffset : float;
  scrolls : list float
}.

Definition set_navLinks (ls : list NavLink) (pg : Page) : Page :=
  mkPage ls (elements pg) (pageYOffset pg) (scrolls pg).

Definition push_scroll (top : float) (pg : Page) : Page :=
  mkPage (navLinks pg) (elements pg) (pageYOffset pg) (scrolls pg ++ [top]).

(** *** DOMTokenList *)

(** ASCII white space: TAB, LF, FF, CR and SPACE. *)
Definition ascii_whitespace (c : ascii) : bool :=
  let n := nat_of_ascii c in
  Nat.eqb n 9 || Nat.eqb n 10 || Nat.eqb n 12 || Nat.eqb n 13 || Nat.eqb n 32.

Fixpoint has_whitespace (s : string) : bool :=
  match s with
  | EmptyString => false
  | String c rest => ascii_whitespace c || has_whitespace rest
  end.

(** What [classList.add(tok)] and [classList.remove(tok)] throw before
    they touch the list: a SyntaxError for the empty token, an
    InvalidCharacterError for a token with white space in it. *)
Definition token_error (tok : string) : option exn :=
  if String.eqb tok "" then Some SyntaxError
  else if has_whitespace tok then Some InvalidCharacterError
  else None.

(** The tokens of a [class] attribute: its maximal runs of code units
    that are not white space.  [cur] is the run being read. *)
Fixpoint split_tokens (s : string) (cur : string) : list string :=
  match s with
  | EmptyString => if String.eqb cur "" then [] else [cur]
  | String c rest =>
      if ascii_whitespace c then
        (if String.eqb cur "" then split_tokens rest ""
         else cur :: split_tokens rest "")
      else split_tokens rest (cur +:+ String c "")
  end.

Definition class_tokens (className : string) : list string :=
  split_tokens className "".

Definition contains (tok : string) (cl : list string) : bool :=
  existsb (String.eqb tok) cl.

Definition classList_remove (tok : string) (cl : list string) : list string :=
  List.filter (fun c => negb (String.eqb tok c)) cl.

Definition classList_add (tok : string) (cl : list string) : list string :=
  if contains tok cl then cl else cl ++ [tok].

Definition remove_class (tok : string) (l : NavLink) : NavLink :=
  mkNavLink (href l) (classList_remove tok (classList l)).

Definition add_class (tok : string) (l : NavLink) : NavLink :=
  mkNavLink (href l) (classList_add tok (classList l)).

Definition marked (tok : string) (l : NavLink) : bool :=
  contains tok (classList l).

(** How many links carry the token. *)
Definition count_marked (tok : string) (ls : list NavLink) : nat :=
  length (List.filter (marked tok) ls).

(** *** Selectors *)

(** A code unit that cannot stand for itself inside a double-quoted CSS
    string: the quote, the backslash, a newline (LF, FF, CR) and NUL. *)
Definition needs_escape (c : ascii) : bool :=
  let n := nat_of_ascii c in
  Nat.eqb n 34 || Nat.eqb n 92 || Nat.eqb n 10 || Nat.eqb n 12
  || Nat.eqb n 13 || Nat.eqb n 0.

Fixpoint selector_safe (s : string) : bool :=
  match s with
  | EmptyString => true
  | String c rest => negb (needs_escape c) && selector_safe rest
  end.

(** Result of [document.querySelector] on the sidebar: the position of the
    element found, [null], or a selector the engine rejects. *)
Inductive query_result : Type :=
| Matched (i : nat)
| NoMatch
| BadSelector.

(** String interpolation in a template literal. *)
Definition interpolate (v : option string) : string :=
  match v with
  | Some s => s
  | None => "null"
  end.

(** [String.prototype.substring(1)]. *)
Definition substring1 (s : string) : string :=
  match s with
  | EmptyString => EmptyString
  | String _ rest => rest
  end.

(** [document.getElementById]: the first element with this id; no element
    has the empty id. *)
Definition getElementById (id : string) (els : list Element) : option Element :=
  if String.eqb id "" then None
  else List.find (fun e => match el_id e with
                           | Some i => String.eqb i id
                           | None => false
                           end) els.

(** The options of [initDocsObserver] other than [activeClass]; [None]
    stands for an option that is omitted. *)
Record DocsOptions : Type := mkDocsOptions {
  sectionSelector : option string;           (* default 'section[id]' *)
  sidebarSelector : option string;           (* default 'aside a[href^=#]', the # quoted *)
  docs_offset : option float                 (* default 120 *)
}.

(** [document.querySelectorAll('section[id]')]. *)
Definition querySelectorAll_sections (els : list Element) : list Element :=
  List.filter (fun e => String.eqb (el_tag e) "section"
                        && match el_id e with Some _ => true | None => false end)
              els.

Section Docs.

(** The answer of the selector engine for an identifier that does not stand
    for itself between the quotes of the attribute selector; it reads the
    [href] attributes only. *)
Variable escaped_query : string -> list (option string) -> query_result.

(** The options of both helpers: [activeClass] is any string, whether a
    class token or not. *)
Variable activeClass : string.
Variable stickyOffset : float.

(** [document.querySelectorAll] for a section selector other than the
    default one: the elements it matches, or the error of an engine that
    rejects it.  [sidebar_selector_accepted] tells whether the engine
    accepts a sidebar selector other than the default one; the links such
    a selector matches are the [navLinks] of the page. *)
Variable custom_sections : string -> list Element -> exn + list Element.
Variable sidebar_selector_accepted : string -> bool.

(** [document.querySelector(`${sidebarSelector}[href="#${sectionId}"]`)]:
    for an identifier that stands for itself between the quotes, the first
    sidebar link whose [href] attribute is [#] followed by the identifier. *)
Definition querySelector_href (sectionId : string) (links : list NavLink)
  : query_result :=
  if selector_safe sectionId then
    match list_find (fun l => href l = Some ("#" +:+ sectionId)) links with
    | Some (i, _) => Matched i
    | None => NoMatch
    end
  else escaped_query sectionId (map href links).

(** The body shared, word for word, by [onSectionChange] of
    [initDocsObserver] and [setActiveLink] of [initDocsNav].  When
    [activeClass] is no class token, [classList.remove] throws on the
    first link, before anything is changed; with no link at all nothing
    is removed and nothing is found to be marked. *)
Definition highlight (sectionId : string) (pg : Page) : completion Page :=
  match token_error activeClass, navLinks pg with
  | Some e, _ :: _ => Throw e pg
  | _, _ =>
      let links := map (remove_class activeClass) (navLinks pg) in
      match querySelector_href sectionId links with
      | BadSelector => Throw SyntaxError (set_navLinks links pg)
      | NoMatch => Normal (set_navLinks links pg)
      | Matched i =>
          Normal (set_navLinks (alter (add_class activeClass) i links) pg)
      end
  end.

(** The links after [highlight]: as they were when the class is no token;
    else all unmarked, then the one found marked. *)
Definition relinked (sectionId : string) (ls : list NavLink) : list NavLink :=
  match token_error activeClass, ls with
  | Some _, _ :: _ => ls
  | _, _ =>
      match querySelector_href sectionId (map (remove_class activeClass) ls) with
      | Matched i =>
          alter (add_class activeClass) i (map (remove_class activeClass) ls)
      | _ => map (remove_class activeClass) ls
      end
  end.

(** What the DOM keeps true of every class list: each entry is a class
    token. *)
Definition class_lists_ok (pg : Page) : Prop :=
  Forall (fun l => Forall (fun c => token_error c = None) (classList l))
         (navLinks pg).

Definition docs_onSectionChange : Callback Page :=
  fun sectionId pg => highlight (interpolate sectionId) pg.

Definition setActiveLink (sectionId : string) (pg : Page) : completion Page :=
  highlight sectionId pg.

(** [document.querySelectorAll(sectionSelector)]. *)
Definition select_sections (selector : option string) (els : list Element)
  : exn + list Element :=
  match selector with
  | None => inr (querySelectorAll_sections els)
  | Some s => custom_sections s els
  end.

(** Whether [document.querySelectorAll(sidebarSelector)] returns. *)
Definition sidebar_accepted (selector : option string) : bool :=
  match selector with
  | None => true
  | Some s => sidebar_selector_accepted s
  end.

(** [HtmxRObserver.initDocsObserver]: the sections are selected, then the
    sidebar links, then the observer is created; each of the three may
    throw.  For a sidebar selector other than the default one the
    callback is the one of the default, which is what the code does when
    that selector ends in a compound selector. *)
Definition initDocsObserver (options : DocsOptions) (t : Z) (pg : Page)
  : exn + Closure Page :=
  match select_sections (sectionSelector options) (elements pg) with
  | inl e => inl e
  | inr secs =>
      if sidebar_accepted (sidebarSelector options) then
        createSectionObserver
          (mkOptions (Some secs)
                     (Some (default 120%float (docs_offset options)))
                     (Some docs_onSectionChange)
                     None)
          t pg
      else inl SyntaxError
  end.

(** The click listener that [initDocsNav] puts on the link at position [i]
    of [navLinks].  [e.preventDefault()] keeps the browser from following
    the link and touches nothing of the state modelled here.  The handler
    does not refer to any section observer. *)
Definition click_handler (i : nat) (pg : Page) : completion Page :=
  match navLinks pg !! i with
  | None => Normal pg
  | Some link =>
      match href link with
      | None => Throw TypeError pg
      | Some h =>
          let targetId := substring1 h in
          match getElementById targetId (elements pg) with
          | Some targetSection =>
              setActiveLink targetId pg >>= fun pg =>
              let targetPosition :=
                (el_top targetSection + pageYOffset pg - stickyOffset)%float in
              Normal (push_scroll targetPosition pg)
          | None => Normal pg
          end
      end
  end.

(** Events of a page that runs both helpers. *)
Inductive page_event : Type :=
| Observer (e : event)
| Click (i : nat).

Definition page_step (e : page_event) (w : Closure Page) : Closure Page :=
  match e with
  | Observer e => step e w
  | Click i => set_page (calls w) (state_of (click_handler i (page w))) w
  end.

Definition page_run (es : list page_event) (w : Closure Page) : Closure Page :=
  fold_left (fun w e => page_step e w) es w.

(** The [href] of the links that carry the active class. *)
Definition active_hrefs (pg : Page) : list (option string) :=
  map href (List.filter (marked activeClass) (navLinks pg)).

End Docs.

(** ** A sample page: regions [intro], [usage], [api] *)

Module Sample.

Definition intro : Element := mkElement 1 "section" (Some "intro") 200.
Definition usage : Element := mkElement 2 "section" (Some "usage") 900.
Definition api : Element := mkElement 3 "section" (Some "api") 1700.

Definition links : list NavLink :=
  [ mkNavLink (Some "#intro") ["active"];
    mkNavLink (Some "#usage") [];
    mkNavLink (Some "#api") [];
    mkNavLink (Some "#missing") [] ].

Definition doc : Page := mkPage links [intro; usage; api] 0 [].

(** An engine that rejects every identifier in need of escaping. *)
Definition strict : string -> list (option string) -> query_result :=
  fun _ _ => BadSelector.

Definition visible (e : Element) : Entry := mkEntry e true.
Definition hidden (e : Element) : Entry := mkEntry e false.

(** The closure [initDocsObserver] returns on [doc] at time 0, with the
    default active class. *)
Definition docs : Closure Page :=
  mkClosure (Some (docs_onSectionChange strict "active")) true false None
    [intro; usage; api] 0 1 [] [] doc.

Definition hrefs (w : Closure Page) : list (option string) :=
  active_hrefs "active" (page w).

(** An engine that finds nothing for an identifier in need of escaping. *)
Definition lenient : string -> list (option string) -> query_result :=
  fun _ _ => NoMatch.

(** The same regions watched with [disableDuringScroll = false]. *)
Definition eager_options : Options Page :=
  mkOptions (Some [intro; usage; api])
            None
            (Some (docs_onSectionChange lenient "active"))
            (Some false).

Definition eager : Closure Page :=
  mkClosure (Some (docs_onSectionChange lenient "active")) false false None
    [intro; usage; api] 0 1 [] [] doc.

(** The options [initDocsObserver] passes on. *)
Definition docs_options : Options Page :=
  mkOptions (Some [intro; usage; api])
            (Some 120%float)
            (Some (docs_onSectionChange strict "active"))
            None.

(** An engine that knows the default selectors only. *)
Definition no_sections : string -> list Element -> exn + list Element :=
  fun _ _ => inl SyntaxError.

Definition no_sidebar : string -> bool := fun _ => false.


End Sample.

(** ** [HtmxRScroll.scrollTo] and [getNavbarHeight] *)

(** The first argument of [scrollTo]: a selector, or an element ([None] for
    [null] and [undefined]). *)
Inductive scroll_target : Type :=
| BySelector (selector : string)
| ByElement (element : option Element).

(** The argument handed to [window.scrollTo]. *)
Record ScrollToOptions : Type := mkScrollToOptions {
  opt_top : float;
  opt_behavior : string
}.

(** [getNavbarHeight] of [initDocsNav]; [navbar] is the [offsetHeight] of
    the first [nav] element, [None] when the document has none. *)
Definition getNavbarHeight (navbar : option Z) : Z :=
  match navbar with
  | Some offsetHeight => offsetHeight
  | None => 80%Z
  end.

Section ScrollTo.

(** [document.querySelector] on an arbitrary selector: the first element
    that matches, [null], or a selector the engine rejects. *)
Variable querySelector : string -> list Element -> exn + option Element.

(** What [scrollTo(elementOrSelector, offset = 0, smooth = true)] hands to
    [window.scrollTo], if it gets that far. *)
Definition scrollTo_request (elementOrSelector : scroll_target)
    (offset : option float) (smooth : option bool) (pg : Page)
  : exn + option ScrollToOptions :=
  let element :=
    match elementOrSelector with
    | BySelector selector => querySelector selector (elements pg)
    | ByElement element => inr element
    end in
  match element with
  | inl e => inl e
  | inr None => inr None
  | inr (Some element) =>
      let targetPosition :=
        (el_top element + pageYOffset pg - default 0%float offset)%float in
      inr (Some (mkScrollToOptions targetPosition
                   (if default true smooth then "smooth" else "auto")))
  end.

Definition scrollTo (elementOrSelector : scroll_target)
    (offset : option float) (smooth : option bool) (pg : Page)
  : completion Page :=
  match scrollTo_request elementOrSelector offset smooth pg with
  | inl e => Throw e pg
  | inr None => Normal pg
  | inr (Some options) => Normal (push_scroll (opt_top options) pg)
  end.

End ScrollTo.

(** ** More sample pages *)

Module MoreSamples.

Import Sample.

(** A section whose identifier starts with a double quote. *)
Definition quoted : Element :=
  mkElement 5 "section" (Some (String (ascii_of_nat 34) "faq")) 3000.

(** An observer with no callback. *)
Definition bare : Closure Page :=
  mkClosure None true false None [intro; usage; api] 0 1 [] [] doc.

(** A sidebar with a bare [#] link and two links to [api]. *)
Definition links2 : list NavLink :=
  [ mkNavLink (Some "#") ["top"];
    mkNavLink (Some "#intro") ["nav-link"; "active"];
    mkNavLink (Some "#api") ["nav-link"];
    mkNavLink (Some "#api") ["nav-link"; "small"] ].

Definition doc2 : Page := mkPage links2 [intro; usage; api] 640 [].

(** [quoted] and [usage] watched with [disableDuringScroll = false], by
    the docs callback over the engine that rejects. *)
Definition eager_strict_options : Options Page :=
  mkOptions (Some [quoted; usage])
            None
            (Some (docs_onSectionChange strict "active"))
            (Some false).

Definition eager_strict : Closure Page :=
  mkClosure (Some (docs_onSectionChange strict "active")) false false None
    [quoted; usage] 0 1 [] [] doc.

(** A selector engine that knows id selectors only. *)
Definition id_engine (selector : string) (els : list Element)
  : exn + option Element :=
  match selector with
  | String "#" id => inr (getElementById id els)
  | _ => inl SyntaxError
  end.

End MoreSamples.

(** ** Modal management ([HtmxRModal]) *)

Module Modal.

(** An element that may serve as a modal: its [id], its [style.display],
    whether it has a [.modal-content] descendant, and how many click
    listeners [setupEventListeners] has put on it and on its content. *)
Record ModalElement : Type := mkModalElement {
  m_id : string;
  display : string;
  modal_content : bool;
  backdrop_listeners : nat;
  content_listeners : nat
}.

Inductive callback_call : Type :=
| OnOpen (modalId : string)
| OnClose (modalId : string).

(** The object [HtmxRModal] and what it reaches of the page.
    - [openModals]: the Set, in insertion order.
    - [eventListeners]: the own keys of the object of that name;
      [proto_swapped] tells that its prototype has been replaced by a
      handler record (an assignment to the key [__proto__]).
    - [document]: the elements with an [id], in document order; elements
      are neither added nor removed, and nothing else writes their
      [style.display].
    - [overflow]: [document.body.style.overflow].
    - [keydown]: the Escape handlers on [document], in registration order,
      each named by the modal it closes.
    - [warnings], [callbacks]: ghost logs of [console.warn] and of the
      [onOpen] / [onClose] callbacks invoked; the callbacks return and do
      not call back into [HtmxRModal]. *)
Record State : Type := mkState {
  openModals : list string;
  eventListeners : list string;
  proto_swapped : bool;
  document : list ModalElement;
  overflow : string;
  keydown : list string;
  warnings : list string;
  callbacks : list callback_call
}.

Record Options : Type := mkOptions {
  closeOnEscape : option bool;       (* default true *)
  closeOnBackdrop : option bool;     (* default true *)
  onOpen : bool;                     (* a callback is supplied *)
  onClose : bool
}.

(** [options = {}]. *)
Definition no_options : Options := mkOptions None None false false.

(** The names every plain object inherits from [Object.prototype]; each
    holds a value that counts as true. *)
Definition object_prototype_keys : list string :=
  ["constructor"; "__defineGetter__"; "__defineSetter__"; "hasOwnProperty";
   "__lookupGetter__"; "__lookupSetter__"; "isPrototypeOf";
   "propertyIsEnumerable"; "toString"; "valueOf"; "__proto__";
   "toLocaleString"].

Definition mem (x : string) (l : list string) : bool :=
  existsb (String.eqb x) l.

(** [Set.prototype.add] and [Set.prototype.delete]. *)
Definition set_add (x : string) (l : list string) : list string :=
  if mem x l then l else l ++ [x].

Definition set_delete (x : string) (l : list string) : list string :=
  List.filter (fun y => negb (String.eqb x y)) l.

(** Is [this.eventListeners[modalId]] a value that counts as true? *)
Definition has_listeners (modalId : string) (s : State) : bool :=
  mem modalId (eventListeners s)
  || mem modalId object_prototype_keys
  || (proto_swapped s && String.eqb modalId "escapeHandler").

(** [document.getElementById]: the position of the first element with this
    id; no element has the empty id. *)
Fixpoint index_of (modalId : string) (els : list ModalElement) : option nat :=
  match els with
  | [] => None
  | e :: rest =>
      if String.eqb (m_id e) modalId then Some 0
      else option_map S (index_of modalId rest)
  end.

Definition getElementById (modalId : string) (els : list ModalElement)
  : option nat :=
  if String.eqb modalId "" then None else index_of modalId els.

Definition set_display (v : string) (e : ModalElement) : ModalElement :=
  mkModalElement (m_id e) v (modal_content e) (backdrop_listeners e)
    (content_listeners e).

Definition add_click_listeners (e : ModalElement) : ModalElement :=
  mkModalElement (m_id e) (display e) (modal_content e)
    (S (backdrop_listeners e)) (S (content_listeners e)).

Definition with_document (els : list ModalElement) (s : State) : State :=
  mkState (openModals s) (eventListeners s) (proto_swapped s) els
    (overflow s) (keydown s) (warnings s) (callbacks s).

Definition log_callback (c : callback_call) (s : State) : State :=
  mkState (openModals s) (eventListeners s) (proto_swapped s) (document s)
    (overflow s) (keydown s) (warnings s) (callbacks s ++ [c]).

(** [setupEventListeners(modalId, options)]. *)
Definition setupEventListeners (modalId : string) (options : Options)
    (s : State) : State :=
  match getElementById modalId (document s) with
  | None => s
  | Some i =>
      let modalContent :=
        match document s !! i with
        | Some modal => modal_content modal
        | None => false
        end in
      let s :=
        if default true (closeOnEscape options) then
          (* document.addEventListener('keydown', escapeHandler);
             this.eventListeners[modalId] = { escapeHandler } *)
          if String.eqb modalId "__proto__" then
            mkState (openModals s) (eventListeners s) true (document s)
              (overflow s) (keydown s ++ [modalId]) (warnings s) (callbacks s)
          else
            mkState (openModals s) (set_add modalId (eventListeners s))
              (proto_swapped s) (document s) (overflow s)
              (keydown s ++ [modalId]) (warnings s) (callbacks s)
        else s in
      if default true (closeOnBackdrop options) && modalContent then
        with_document (alter add_click_listeners i (document s)) s
      else s
  end.

(** [open(modalId, options)]. *)
Definition open (modalId : string) (options : Options) (s : State) : State :=
  match getElementById modalId (document s) with
  | None =>
      mkState (openModals s) (eventListeners s) (proto_swapped s) (document s)
        (overflow s) (keydown s)
        (warnings s ++ ["Modal " +:+ String (ascii_of_nat 34) modalId
                        +:+ String (ascii_of_nat 34) " not found"])
        (callbacks s)
  | Some i =>
      let s :=
        mkState (set_add modalId (openModals s)) (eventListeners s)
          (proto_swapped s) (alter (set_display "flex") i (document s))
          "hidden" (keydown s) (warnings s) (callbacks s) in
      let s :=
        if negb (has_listeners modalId s)
        then setupEventListeners modalId options s
        else s in
      if onOpen options then log_callback (OnOpen modalId) s else s
  end.

(** [close(modalId, options)]. *)
Definition close (modalId : string) (options : Options) (s : State) : State :=
  match getElementById modalId (document s) with
  | None => s
  | Some i =>
      let remaining := set_delete modalId (openModals s) in
      let s :=
        mkState remaining (eventListeners s) (proto_swapped s)
          (alter (set_display "none") i (document s))
          (if Nat.eqb (length remaining) 0 then "auto" else overflow s)
          (keydown s) (warnings s) (callbacks s) in
      if onClose options then log_callback (OnClose modalId) s else s
  end.

(** [closeAll()]: the Set is copied first, then each modal is closed. *)
Definition closeAll (s : State) : State :=
  fold_left (fun s modalId => close modalId no_options s) (openModals s) s.

(** One Escape handler: [if (e.key === 'Escape' && this.openModals.has(modalId))
    this.close(modalId)]. *)
Definition escapeHandler (modalId : string) (key : string) (s : State) : State :=
  if String.eqb key "Escape" && mem modalId (openModals s)
  then close modalId no_options s
  else s.

(** A [keydown] event on the document: every handler runs, in registration
    order. *)
Definition on_keydown (key : string) (s : State) : State :=
  fold_left (fun s modalId => escapeHandler modalId key s) (keydown s) s.

(** A click whose target is the element at position [i] itself (the
    backdrop): each click listener on it closes the modal.  A click inside
    the content has another target and closes nothing. *)
Definition on_backdrop_click (i : nat) (s : State) : State :=
  match document s !! i with
  | None => s
  | Some modal =>
      Nat.iter (backdrop_listeners modal) (close (m_id modal) no_options) s
  end.

Inductive event : Type :=
| Open (modalId : string) (options : Options)
| Close (modalId : string) (options : Options)
| CloseAll
| KeyDown (key : string)
| BackdropClick (i : nat).

Definition step (e : event) (s : State) : State :=
  match e with
  | Open modalId options => open modalId options s
  | Close modalId options => close modalId options s
  | CloseAll => closeAll s
  | KeyDown key => on_keydown key s
  | BackdropClick i => on_backdrop_click i s
  end.

Definition run (es : list event) (s : State) : State :=
  fold_left (fun s e => step e s) es s.

(** The object as the script leaves it, on a page with these elements and
    this body overflow. *)
Definition init (els : list ModalElement) (body_overflow : string) : State :=
  mkState [] [] false els body_overflow [] [] [].

(** The display of the element [getElementById] finds. *)
Definition display_of (modalId : string) (s : State) : option string :=
  match getElementById modalId (document s) with
  | Some i => option_map display (document s !! i)
  | None => None
  end.

(** What holds of every state the page reaches: the Set has no repetition,
    every open modal is displayed, the body does not scroll while a modal
    is open, and each Escape handler is registered once and recorded in
    [eventListeners]. *)
Definition consistent (s : State) : Prop :=
  NoDup (openModals s)
  /\ (forall modalId, In modalId (openModals s) ->
                      display_of modalId s = Some "flex")
  /\ (openModals s <> [] -> overflow s = "hidden")
  /\ NoDup (keydown s)
  /\ (forall modalId, In modalId (keydown s) ->
                      mem modalId (eventListeners s) = true).

(** A sample page with four candidate modals. *)
Definition sample : State :=
  init [ mkModalElement "login" "none" true 0 0;
         mkModalElement "help" "none" true 0 0;
         mkModalElement "constructor" "none" true 0 0;
         mkModalElement "plain" "none" false 0 0 ] "scroll".

End Modal.

(** ** Chat content ([HtmxRChat._formatContent]) *)

Module Chat.

(** A JavaScript string: its UTF-16 code units. *)
Definition jsstring : Type := list N.

Definition units (s : string) : jsstring :=
  map N_of_ascii (list_ascii_of_string s).

Definition amp : N := 38.
Definition lt : N := 60.
Definition gt : N := 62.
Definition star : N := 42.
Definition newline : N := 10.

(** [text.replace(/c/g, by)] for a pattern of one code unit and a
    replacement without [$]. *)
Definition replace_unit (c : N) (by_ : jsstring) (text : jsstring) : jsstring :=
  flat_map (fun u => if N.eqb u c then by_ else [u]) text.

(** The code units [.] does not match: LF, CR, LS, PS. *)
Definition line_terminator (u : N) : bool :=
  N.eqb u 10 || N.eqb u 13 || N.eqb u 8232 || N.eqb u 8233.

Definition starts_with_stars (s : jsstring) : bool :=
  match s with
  | a :: b :: _ => N.eqb a star && N.eqb b star
  | _ => false
  end.

(** [(.+?)\*\*] read lazily from [s]: the shortest run of one or more code
    units, none a line terminator, that two stars follow. *)
Fixpoint lazy_run (s : jsstring) : option jsstring :=
  match s with
  | [] => None
  | u :: rest =>
      if line_terminator u then None
      else if starts_with_stars rest then Some [u]
      else option_map (cons u) (lazy_run rest)
  end.

(** A match of [\*\*(.+?)\*\*] that starts at the head of [s]: its group. *)
Definition match_at (s : jsstring) : option jsstring :=
  match s with
  | a :: b :: rest =>
      if N.eqb a star && N.eqb b star then lazy_run rest else None
  | _ => None
  end.

(** [s.replace(/\*\*(.+?)\*\*/g, '<strong>$1</strong>')]: matches are looked
    for from left to right and do not overlap.  [skip] counts the code
    units of the current match still to be passed over. *)
Fixpoint bold_from (skip : nat) (s : jsstring) : jsstring :=
  match s with
  | [] => []
  | u :: rest =>
      match skip with
      | S k => bold_from k rest
      | 0 =>
          match match_at s with
          | Some group =>
              units "<strong>" ++ group ++ units "</strong>"
              ++ bold_from (length group + 3) rest
          | None => u :: bold_from 0 rest
          end
      end
  end.

Definition bold (s : jsstring) : jsstring := bold_from 0 s.

(** [_formatContent(text)]. *)
Definition _formatContent (text : jsstring) : jsstring :=
  replace_unit newline (units "<br>")
    (bold
       (replace_unit gt (units "&gt;")
          (replace_unit lt (units "&lt;")
             (replace_unit amp (units "&amp;") text)))).

(** Markup in which the only tags are those [_formatContent] writes: a
    string made of code units other than [<] and [>] and of the tags
    [<strong>], [</strong>] and [<br>]. *)
Inductive only_known_tags : jsstring -> Prop :=
| okt_nil : only_known_tags []
| okt_unit u s :
    u <> lt -> u <> gt -> only_known_tags s -> only_known_tags (u :: s)
| okt_strong s : only_known_tags s -> only_known_tags (units "<strong>" ++ s)
| okt_strong_end s : only_known_tags s -> only_known_tags (units "</strong>" ++ s)
| okt_br s : only_known_tags s -> only_known_tags (units "<br>" ++ s).

(** Text that no step of [_formatContent] rewrites. *)
Definition plain (u : N) : bool :=
  negb (N.eqb u amp || N.eqb u lt || N.eqb u gt || N.eqb u star
        || N.eqb u newline).

End Chat.

(** ** Chat rows ([HtmxRChat.appendMessage], [setTyping], [clearMessages]) *)

Module ChatBox.

Import Chat.

(** A child of the chat container.  The class attribute of a message row
    is [htmx-r-chat-row htmx-r-chat-row--] followed by the role, whatever
    the role is, and that of its bubble is made from the role in the same
    way; the typing indicator carries [htmx-r-chat-typing] and
    [htmx-r-chat-row]; any other child carries neither, and nor do its
    descendants.  Inline styles and the fade-in they drive are left out. *)
Inductive Child : Type :=
| MessageRow (role : string) (avatar : option jsstring) (html : jsstring)
| TypingRow (avatarText : jsstring)
| Foreign (tag : string).

(** The container and what the helpers reach beside it: the scroll
    commands sent to the container (their [behavior]), whether the document
    holds the [htmx-r-chat-bounce] style element, and how often
    [console.warn] was called. *)
Record Box : Type := mkBox {
  children : list Child;
  scrollCmds : list string;
  bounce_style : bool;
  warned : nat
}.

Record MessageOptions : Type := mkMessageOptions {
  role : option string;            (* default 'user' *)
  content : option jsstring;       (* default '' *)
  avatarText : option jsstring;    (* default: the robot face *)
  animate : option bool            (* default true *)
}.

(** The robot face, U+1F916, as a surrogate pair. *)
Definition robot : jsstring := [55358%N; 56598%N].

(** The class tokens of a child. *)
Definition classes (c : Child) : list string :=
  match c with
  | MessageRow role _ _ =>
      class_tokens ("htmx-r-chat-row htmx-r-chat-row--" +:+ role)
  | TypingRow _ =>
      class_tokens "htmx-r-chat-typing htmx-r-chat-row htmx-r-chat-row--assistant"
  | Foreign _ => []
  end.

(** Whether the child matches [.htmx-r-chat-typing].  A bubble matches
    only inside a row that matches, and the row comes first in document
    order, so that the first match of the selector in the container is
    the first child that matches. *)
Definition is_typing (c : Child) : bool :=
  contains "htmx-r-chat-typing" (classes c).

(** Whether the child matches [.htmx-r-chat-row]. *)
Definition is_row (c : Child) : bool :=
  contains "htmx-r-chat-row" (classes c).

Arguments is_typing : simpl never.
Arguments is_row : simpl never.

(** [scrollToBottom(container, smooth = true)]; [found] tells whether the
    argument denotes an element. *)
Definition scrollToBottom (found : bool) (smooth : option bool) (b : Box) : Box :=
  if found then
    mkBox (children b)
      (scrollCmds b ++ [if default true smooth then "smooth" else "auto"])
      (bounce_style b) (warned b)
  else b.

(** [appendMessage(container, options)]. *)
Definition appendMessage (found : bool) (options : MessageOptions) (b : Box)
  : Box :=
  if found then
    let role := default "user" (role options) in
    let isUser := String.eqb role "user" in
    let row :=
      MessageRow role
        (if isUser then None else Some (default robot (avatarText options)))
        (_formatContent (default [] (content options))) in
    scrollToBottom true None
      (mkBox (children b ++ [row]) (scrollCmds b) (bounce_style b) (warned b))
  else mkBox (children b) (scrollCmds b) (bounce_style b) (S (warned b)).

(** [existingIndicator.remove()] for the first typing indicator. *)
Fixpoint remove_first_typing (cs : list Child) : list Child :=
  match cs with
  | [] => []
  | c :: rest => if is_typing c then rest else c :: remove_first_typing rest
  end.

(** [setTyping(container, visible, avatarText)]. *)
Definition setTyping (found : bool) (visible : bool)
    (avatarText : option jsstring) (b : Box) : Box :=
  if found then
    let existingIndicator := existsb is_typing (children b) in
    if negb visible then
      if existingIndicator then
        mkBox (remove_first_typing (children b)) (scrollCmds b)
          (bounce_style b) (warned b)
      else b
    else if existingIndicator then b
    else
      scrollToBottom true None
        (mkBox (children b ++ [TypingRow (default robot avatarText)])
           (scrollCmds b) true (warned b))
  else b.

(** [clearMessages(container)]. *)
Definition clearMessages (found : bool) (b : Box) : Box :=
  if found then
    mkBox (List.filter (fun c => negb (is_row c)) (children b)) (scrollCmds b)
      (bounce_style b) (warned b)
  else b.

Inductive call : Type :=
| AppendMessage (found : bool) (options : MessageOptions)
| SetTyping (found : bool) (visible : bool) (avatarText : option jsstring)
| ClearMessages (found : bool)
| ScrollToBottom (found : bool) (smooth : option bool).

Definition apply_call (c : call) (b : Box) : Box :=
  match c with
  | AppendMessage found options => appendMessage found options b
  | SetTyping found visible avatarText => setTyping found visible avatarText b
  | ClearMessages found => clearMessages found b
  | ScrollToBottom found smooth => scrollToBottom found smooth b
  end.

Definition apply_calls (cs : list call) (b : Box) : Box :=
  fold_left (fun b c => apply_call c b) cs b.

Definition typing_count (b : Box) : nat :=
  length (List.filter is_typing (children b)).

(** A role that puts the class of the typing indicator on a message
    row. *)
Definition typing_role (role : string) : bool :=
  is_typing (MessageRow role None []).

(** No message of the calls has such a role. *)
Definition plain_roles (cs : list call) : bool :=
  forallb (fun c => match c with
                    | AppendMessage _ options =>
                        negb (typing_role (default "user" (role options)))
                    | _ => true
                    end) cs.

(** A message row whose bubble holds no tag but the known ones. *)
Definition bubble_ok (c : Child) : Prop :=
  match c with
  | MessageRow _ _ html => only_known_tags html
  | _ => True
  end.

End ChatBox.

(** ** Toast notifications ([HtmxRToast]) *)

Module Toast.

(** [_defaults]. *)
Record Defaults : Type := mkDefaults {
  duration : Z;
  position : string;
  maxVisible : Z
}.

(** The options of [show]; [onDismiss] tells whether a callback is given. *)
Record ShowOptions : Type := mkShowOptions {
  o_type : option string;
  o_duration : option Z;
  o_position : option string;
  o_title : option string;
  o_onDismiss : bool
}.

(** The options of [configure]: the defaults it assigns. *)
Record ConfigureOptions : Type := mkConfigureOptions {
  c_duration : option Z;
  c_position : option string;
  c_maxVisible : option Z
}.

(** A toast element: its identity, what it shows, and whether its close
    button and its timers carry an [onDismiss] callback.  Colours and
    inline styles are left out. *)
Record ToastEl : Type := mkToastEl {
  toast_id : nat;
  kind : string;
  title : option string;
  message : string;
  has_onDismiss : bool
}.

(** The callbacks handed to [setTimeout]: the auto-dismiss of [show] and the
    removal of [_dismiss].  No timer is ever cleared. *)
Inductive timer : Type :=
| AutoDismiss (toast : nat) (onDismiss : bool)
| Removal (toast : nat) (onDismiss : bool).

(** [HtmxRToast] and what it reaches of the page: the toast containers by
    position, each with its toasts in document order; the pending timers,
    oldest first; and a ghost log of the toasts whose [onDismiss] was
    invoked.  The page holds no other element under a container's id, and
    the callbacks return without calling back into [HtmxRToast]. *)
Record State : Type := mkState {
  defaults : Defaults;
  containers : list (string * list ToastEl);
  next_toast : nat;
  timers : list timer;
  dismissed : list nat
}.

(** The script's initial object. *)
Definition init : State :=
  mkState (mkDefaults 3500 "bottom-right" 5) [] 0 [] [].

Fixpoint lookup_container (pos : string) (cs : list (string * list ToastEl))
  : option (list ToastEl) :=
  match cs with
  | [] => None
  | (p, ts) :: rest =>
      if String.eqb p pos then Some ts else lookup_container pos rest
  end.

Fixpoint update_container (pos : string) (f : list ToastEl -> list ToastEl)
    (cs : list (string * list ToastEl)) : list (string * list ToastEl) :=
  match cs with
  | [] => []
  | (p, ts) :: rest =>
      if String.eqb p pos then (p, f ts) :: rest
      else (p, ts) :: update_container pos f rest
  end.

(** [_getContainer(position)]: the container with the id of that position,
    created at the end of the body when it is not there. *)
Definition _getContainer (pos : string) (s : State) : State :=
  match lookup_container pos (containers s) with
  | Some _ => s
  | None =>
      mkState (defaults s) (containers s ++ [(pos, [])]) (next_toast s)
        (timers s) (dismissed s)
  end.

Definition with_containers (cs : list (string * list ToastEl)) (s : State)
  : State :=
  mkState (defaults s) cs (next_toast s) (timers s) (dismissed s).

(** [show(message, options)]. *)
Definition show (msg : string) (options : ShowOptions) (s : State)
  : completion State :=
  let type := default "info" (o_type options) in
  let duration := default (duration (defaults s)) (o_duration options) in
  let position := default (position (defaults s)) (o_position options) in
  let s := _getContainer position s in
  let toasts := default [] (lookup_container position (containers s)) in
  (if (maxVisible (defaults s) <=? Z.of_nat (length toasts))%Z then
     match toasts with
     | [] => Throw TypeError s          (* toasts[0] is undefined *)
     | _ :: _ =>
         Normal (with_containers
                   (update_container position (drop 1) (containers s)) s)
     end
   else Normal s)
  >>= fun s =>
  let toast :=
    mkToastEl (next_toast s) type (o_title options) msg (o_onDismiss options) in
  let s :=
    mkState (defaults s)
      (update_container position (fun ts => ts ++ [toast]) (containers s))
      (S (next_toast s)) (timers s) (dismissed s) in
  Normal
    (if (0 <? duration)%Z then
       mkState (defaults s) (containers s) (next_toast s)
         (timers s ++ [AutoDismiss (toast_id toast) (o_onDismiss options)])
         (dismissed s)
     else s).

(** [configure(options)]. *)
Definition configure (options : ConfigureOptions) (s : State) : State :=
  mkState
    (mkDefaults (default (duration (defaults s)) (c_duration options))
       (default (position (defaults s)) (c_position options))
       (default (maxVisible (defaults s)) (c_maxVisible options)))
    (containers s) (next_toast s) (timers s) (dismissed s).

(** Is the toast in the document ([toast.parentNode])? *)
Definition attached (toast : nat) (s : State) : bool :=
  existsb (fun c => existsb (fun t => Nat.eqb (toast_id t) toast) (snd c))
    (containers s).

(** [_dismiss(toast, onDismiss)]. *)
Definition _dismiss (toast : nat) (onDismiss : bool) (s : State) : State :=
  if attached toast s then
    mkState (defaults s) (containers s) (next_toast s)
      (timers s ++ [Removal toast onDismiss]) (dismissed s)
  else s.

(** [toast.remove()]. *)
Definition remove_toast (toast : nat) (cs : list (string * list ToastEl))
  : list (string * list ToastEl) :=
  map (fun c => (fst c,
                 List.filter (fun t => negb (Nat.eqb (toast_id t) toast))
                   (snd c))) cs.

(** The run of a timer callback. *)
Definition run_timer (t : timer) (s : State) : State :=
  match t with
  | AutoDismiss toast onDismiss => _dismiss toast onDismiss s
  | Removal toast onDismiss =>
      mkState (defaults s) (remove_toast toast (containers s)) (next_toast s)
        (timers s)
        (if onDismiss then dismissed s ++ [toast] else dismissed s)
  end.

(** A click on the close button of a toast that is on the page. *)
Definition click_close (toast : nat) (s : State) : State :=
  match
    List.find (fun t => Nat.eqb (toast_id t) toast)
      (concat (map snd (containers s)))
  with
  | Some t => _dismiss toast (has_onDismiss t) s
  | None => s
  end.

(** What happens to [HtmxRToast].  [Fire i] is the run of the pending timer
    at position [i]; a timer may run at any moment after it was set, which
    covers every schedule of the host. *)
Inductive event : Type :=
| Show (msg : string) (options : ShowOptions)
| Configure (options : ConfigureOptions)
| ClickClose (toast : nat)
| Fire (i : nat).

Definition step (e : event) (s : State) : State :=
  match e with
  | Show msg options => state_of (show msg options s)
  | Configure options => configure options s
  | ClickClose toast => click_close toast s
  | Fire i =>
      match timers s !! i with
      | Some t =>
          run_timer t
            (mkState (defaults s) (containers s) (next_toast s)
               (delete i (timers s)) (dismissed s))
      | None => s
      end
  end.

Definition run (es : list event) (s : State) : State :=
  fold_left (fun s e => step e s) es s.


(** The toast is off the page, no removal of it is pending, and its
    identity has been issued. *)
Definition gone (toast : nat) (s : State) : Prop :=
  attached toast s = false
  /\ (forall cb, ~ In (Removal toast cb) (timers s))
  /\ toast < next_toast s.


End Toast.

(** ** The suppression window *)

Section Suppression.

Context {U : Type}.
Implicit Types (w : Closure U) (es : list event).

Lemma cancel_one (t : Timer) : cancel (t_handle t) [t] = [].
Proof. unfold cancel. simpl. by rewrite Nat.eqb_refl. Qed.

Lemma cancel_other h (t : Timer) : t_handle t <> h -> cancel h [t] = [t].
Proof.
  intros Hne. unfold cancel. simpl.
  destruct (Nat.eqb_spec (t_handle t) h); [done | reflexivity].
Qed.

Lemma wf_clear w :
  wf w -> timers (clearTimeout (scrollTimeout w) w) = [].
Proof.
  unfold wf. destruct w as [f dd s st obs t n ts cs u]; simpl.
  destruct ts as [|tm [|tm' ts]]; simpl.
  - intros _. by destruct st.
  - intros (_ & -> & _). simpl. apply cancel_one.
  - tauto.
Qed.

Lemma clearTimeout_fields h w :
  let w' := clearTimeout h w in
  isScrolling w' = isScrolling w /\ now w' = now w
  /\ next_handle w' = next_handle w /\ page w' = page w
  /\ calls w' = calls w /\ observed w' = observed w
  /\ cfg_disableDuringScroll w' = cfg_disableDuringScroll w
  /\ cfg_onSectionChange w' = cfg_onSectionChange w.
Proof. destruct h; simpl; tauto. Qed.

(** [setScrolling(true, d)] on a well-formed closure. *)
Lemma setScrolling_true w d :
  wf w ->
  let w' := setScrolling true d w in
  isScrolling w' = true
  /\ timers w' = [mkTimer (next_handle w) (now w + delay_of d)]
  /\ scrollTimeout w' = Some (next_handle w)
  /\ next_handle w' = S (next_handle w)
  /\ now w' = now w /\ page w' = page w /\ calls w' = calls w
  /\ observed w' = observed w
  /\ cfg_disableDuringScroll w' = cfg_disableDuringScroll w
  /\ cfg_onSectionChange w' = cfg_onSectionChange w.
Proof.
  intros Hwf. pose proof (wf_clear w Hwf) as Hc.
  unfold setScrolling, setTimeout, delay_of. simpl.
  destruct w as [f dd s st obs t n ts cs u]; simpl in *.
  destruct st as [h|]; simpl in *; rewrite Hc; simpl; repeat split.
Qed.

(** [setScrolling(false, d)] on a well-formed closure. *)
Lemma setScrolling_false w d :
  wf w ->
  let w' := setScrolling false d w in
  isScrolling w' = false /\ timers w' = []
  /\ scrollTimeout w' = scrollTimeout w
  /\ next_handle w' = next_handle w
  /\ now w' = now w /\ page w' = page w /\ calls w' = calls w
  /\ observed w' = observed w
  /\ cfg_disableDuringScroll w' = cfg_disableDuringScroll w
  /\ cfg_onSectionChange w' = cfg_onSectionChange w.
Proof.
  intros Hwf. pose proof (wf_clear w Hwf) as Hc.
  unfold setScrolling. simpl.
  destruct w as [f dd s st obs t n ts cs u]; simpl in *.
  destruct st as [h|]; simpl in *; rewrite ?Hc; subst; repeat split.
Qed.

Lemma wf_setScrolling state d w : wf w -> wf (setScrolling state d w).
Proof.
  intros Hwf. destruct state.
  - destruct (setScrolling_true w d Hwf) as (Hs & Ht & Hh & Hn & _).
    unfold wf. rewrite Ht, Hs, Hh, Hn. simpl. repeat split. lia.
  - destruct (setScrolling_false w d Hwf) as (Hs & Ht & _).
    unfold wf. by rewrite Ht.
Qed.

Lemma due_spec h w :
  due h w = true ->
  exists t, In t (timers w) /\ t_handle t = h /\ (t_due t <= now w)%Z.
Proof.
  unfold due. rewrite existsb_exists. intros (t & Hin & Ht).
  apply andb_true_iff in Ht as [Hh Hd].
  exists t. repeat split; [done | by apply Nat.eqb_eq | by apply Z.leb_le].
Qed.

Lemma wf_expire h w : wf w -> wf (expire h w).
Proof.
  intros Hwf. unfold expire. destruct (due h w) eqn:Hdue; [|done].
  apply due_spec in Hdue as (t & Hin & <- & _).
  unfold wf in *. destruct w as [f dd s st obs tm n ts cs u]; simpl in *.
  destruct ts as [|t0 [|t1 ts]]; simpl in *; try tauto.
  destruct Hin as [->|[]]. by rewrite Nat.eqb_refl.
Qed.

Lemma frame_refl w : frame w w.
Proof. unfold frame. tauto. Qed.

Lemma frame_trans w1 w2 w3 : frame w1 w2 -> frame w2 w3 -> frame w1 w3.
Proof. unfold frame. intuition congruence. Qed.

Lemma on_entry_frame en w : frame w (state_of (on_entry en w)).
Proof.
  unfold on_entry.
  destruct (isIntersecting en); [|apply frame_refl].
  destruct (cfg_onSectionChange w) as [f|]; [|apply frame_refl].
  destruct (f _ _); simpl; unfold frame; simpl; tauto.
Qed.

Lemma forEach_on_entry_frame entries w :
  frame w (state_of (forEach entries on_entry w)).
Proof.
  revert w. induction entries as [|en entries IH]; intros w; simpl.
  - apply frame_refl.
  - pose proof (on_entry_frame en w) as Hen.
    destruct (on_entry en w) as [w1|e w1]; simpl in *; [|done].
    eapply frame_trans; [exact Hen | apply IH].
Qed.

Lemma observer_callback_frame entries w :
  frame w (state_of (observer_callback entries w)).
Proof.
  unfold observer_callback.
  destruct (cfg_disableDuringScroll w && isScrolling w); simpl.
  - apply frame_refl.
  - apply forEach_on_entry_frame.
Qed.

Lemma wf_step e w : wf w -> wf (step e w).
Proof.
  intros Hwf. destruct e as [entries|state d|h|dt]; simpl.
  - destruct (observer_callback_frame entries w) as (Hs & Ht & Hh & Hn & _).
    unfold wf in *. rewrite Ht, Hs, Hh, Hn. exact Hwf.
  - by apply wf_setScrolling.
  - by apply wf_expire.
  - exact Hwf.
Qed.

Lemma wf_run es w : wf w -> wf (run es w).
Proof.
  revert w. induction es as [|e es IH]; intros w Hwf; simpl; [done|].
  apply IH. by apply wf_step.
Qed.

Lemma wf_created options t u w :
  createSectionObserver options t u = inr w -> wf w.
Proof.
  unfold createSectionObserver.
  destruct (rootMargin_parses _); [|done].
  destruct (sections options); [|done].
  intros [= <-]. reflexivity.
Qed.

Lemma wf_at_most_one w : wf w -> length (timers w) <= 1.
Proof.
  unfold wf. destruct (timers w) as [|t [|t' ts]]; simpl; [lia | lia | tauto].
Qed.

End Suppression.

Section SuppressionWindow.

Context {U : Type}.
Implicit Types (w : Closure U) (es : list event).

Lemma elapsed_nonneg es : (0 <= elapsed es)%Z.
Proof.
  induction es as [|e es IH]; simpl; [lia|]. destruct e; lia.
Qed.

Lemma expire_absent h w :
  Forall (fun t => t_handle t <> h) (timers w) -> expire h w = w.
Proof.
  intros Habs. unfold expire. destruct (due h w) eqn:Hdue; [|done].
  apply due_spec in Hdue as (t & Hin & Hh & _).
  rewrite List.Forall_forall in Habs. by destruct (Habs t Hin).
Qed.

Lemma expire_early h w :
  Forall (fun t => (now w < t_due t)%Z) (timers w) -> expire h w = w.
Proof.
  intros Hearly. unfold expire. destruct (due h w) eqn:Hdue; [|done].
  apply due_spec in Hdue as (t & Hin & _ & Hd).
  rewrite List.Forall_forall in Hearly. specialize (Hearly t Hin). lia.
Qed.

(** While the flag is set and the one pending timer is not yet due, a
    sequence of deliveries, expiry attempts and time steps changes nothing
    but the clock. *)
Lemma suppressed_run es : forall w h t,
  cfg_disableDuringScroll w = true ->
  isScrolling w = true ->
  timers w = [mkTimer h t] ->
  no_setScrolling es = true ->
  (now w + elapsed es < t)%Z ->
  let w' := run es w in
  page w' = page w /\ calls w' = calls w /\ isScrolling w' = true
  /\ timers w' = timers w.
Proof.
  induction es as [|e es IH]; intros w h t Hdd Hs Ht Hno Hlt; simpl.
  - tauto.
  - simpl in Hno. apply andb_true_iff in Hno as [He Hno].
    pose proof (elapsed_nonneg es) as Hnn.
    assert (Hstep : page (step e w) = page w /\ calls (step e w) = calls w
                    /\ isScrolling (step e w) = true
                    /\ timers (step e w) = timers w
                    /\ cfg_disableDuringScroll (step e w) = true
                    /\ (now (step e w) + elapsed es < t)%Z).
    { destruct e as [entries|state d|h'|dt]; simpl in *.
      - unfold observer_callback. rewrite Hdd, Hs. simpl. repeat split; auto; lia.
      - discriminate.
      - rewrite expire_early; [repeat split; auto; lia|].
        rewrite Ht. constructor; [simpl; lia | constructor].
      - repeat split; auto; lia. }
    destruct Hstep as (Hp & Hc & Hs' & Ht' & Hdd' & Hlt').
    destruct (IH (step e w) h t Hdd' Hs' (eq_trans Ht' Ht) Hno Hlt')
      as (Hp2 & Hc2 & Hs2 & Ht2).
    repeat split; congruence.
Qed.

Lemma cancel_Forall (P : Timer -> Prop) h ts :
  Forall P ts -> Forall P (cancel h ts).
Proof.
  unfold cancel. rewrite !List.Forall_forall. intros H t Hin.
  apply filter_In in Hin as [Hin _]. by apply H.
Qed.

Lemma handles_from_step k e w : handles_from k w -> handles_from k (step e w).
Proof.
  intros [Hts Hn]. destruct e as [entries|state d|h|dt]; simpl.
  - destruct (observer_callback_frame entries w) as (_ & Ht & _ & Hh & _).
    unfold handles_from. by rewrite Ht, Hh.
  - unfold setScrolling, handles_from.
    assert (Hc : Forall (fun t => k <= t_handle t)
                   (timers (clearTimeout (scrollTimeout w) (set_isScrolling state w)))
                 /\ next_handle (clearTimeout (scrollTimeout w) (set_isScrolling state w))
                    = next_handle w).
    { destruct (scrollTimeout w); simpl; split; auto using cancel_Forall. }
    destruct Hc as [Hc Hcn]. simpl.
    destruct state; simpl; [|by rewrite Hcn].
    rewrite Hcn. split; [|lia].
    apply Forall_app. split; [exact Hc|]. constructor; [simpl; lia | constructor].
  - unfold expire. destruct (due h w); [|done].
    split; simpl; auto using cancel_Forall.
  - done.
Qed.

Lemma handles_from_run k es w : handles_from k w -> handles_from k (run es w).
Proof.
  revert w. induction es as [|e es IH]; intros w H; simpl; [done|].
  apply IH. by apply handles_from_step.
Qed.

End SuppressionWindow.

Section SuppressionClaims.

Context {U : Type}.
Implicit Types (w : Closure U) (es : list event).

(** Once released, the closure stays released until the page calls
    [setScrolling] again. *)
Lemma released_run es : forall w,
  isScrolling w = false -> timers w = [] -> no_setScrolling es = true ->
  isScrolling (run es w) = false /\ timers (run es w) = [].
Proof.
  induction es as [|e es IH]; intros w Hs Ht Hno; simpl; [tauto|].
  simpl in Hno. apply andb_true_iff in Hno as [He Hno].
  apply IH; [| |exact Hno]; destruct e as [entries|state d|h|dt]; simpl;
    try discriminate; try assumption.
  - destruct (observer_callback_frame entries w) as (-> & _); done.
  - rewrite expire_absent; [done|]. rewrite Ht. constructor.
  - destruct (observer_callback_frame entries w) as (_ & -> & _); done.
  - rewrite expire_absent; [done|]. rewrite Ht. constructor.
Qed.

(** C1 (amended): the call that arms suppression is [setScrolling(true, d)];
    the click handler of the navigation links does not make it.  After
    that call the flag is set and one release timer is pending, due
    [delay_of d] ms later (1000 ms when [d] is omitted); with
    [disableDuringScroll] on, every visibility batch that arrives before
    that much time has passed, with no further [setScrolling] in between,
    is dropped: the callback is not invoked and the state of the page,
    the marked link included, stays as it was. *)
Theorem suppression_window_drops_events w d es :
  wf w ->
  cfg_disableDuringScroll w = true ->
  no_setScrolling es = true ->
  (elapsed es < delay_of d)%Z ->
  let w1 := setScrolling true d w in
  let w2 := run es w1 in
  isScrolling w1 = true
  /\ timers w1 = [mkTimer (next_handle w) (now w + delay_of d)]
  /\ delay_of None = 1000%Z
  /\ page w2 = page w1 /\ calls w2 = calls w1 /\ isScrolling w2 = true.
Proof.
  intros Hwf Hdd Hno Hlt w1 w2.
  destruct (setScrolling_true w d Hwf)
    as (Hs & Ht & _ & _ & Hnow & _ & _ & _ & Hdd1 & _).
  fold w1 in Hs, Ht, Hnow, Hdd1.
  assert (Hlt1 : (now w1 + elapsed es < now w + delay_of d)%Z) by lia.
  destruct (suppressed_run es w1 _ _ (eq_trans Hdd1 Hdd) Hs Ht Hno Hlt1)
    as (Hp & Hc & Hs2 & _).
  repeat split; assumption.
Qed.

(** C4: arming suppression twice in immediate succession, for [d1] and
    then for [d2], leaves the same flag and the same single pending expiry
    time as arming it once for [d2]; the clock, the page and the log of
    callback invocations agree as well.  Every state a section observer
    reaches satisfies [wf] ([wf_created], [wf_run]). *)
Theorem suppress_twice_as_once w d1 d2 :
  wf w ->
  let twice := setScrolling true d2 (setScrolling true d1 w) in
  let once := setScrolling true d2 w in
  suppression_state twice = suppression_state once
  /\ suppression_state once = (true, [(now w + delay_of d2)%Z])
  /\ now twice = now once /\ page twice = page once
  /\ calls twice = calls once.
Proof.
  intros Hwf twice once.
  destruct (setScrolling_true w d1 Hwf)
    as (_ & _ & _ & _ & Hnow1 & Hp1 & Hc1 & _).
  destruct (setScrolling_true _ d2 (wf_setScrolling true d1 w Hwf))
    as (Hs2 & Ht2 & _ & _ & Hnow2 & Hp2 & Hc2 & _).
  destruct (setScrolling_true w d2 Hwf)
    as (Hs & Ht & _ & _ & Hnow & Hp & Hc & _).
  fold twice in Hs2, Ht2, Hnow2, Hp2, Hc2.
  fold once in Hs, Ht, Hnow, Hp, Hc.
  unfold suppression_state.
  rewrite Hs2, Ht2, Hs, Ht. cbn [map t_due].
  repeat split; congruence.
Qed.

(** C9: [setScrolling(false, d)], whatever [d], clears the flag, cancels
    the pending timer and schedules none; no expiry runs afterwards, and
    the next visibility batch is walked entry by entry at once. *)
Theorem setScrolling_false_releases w d :
  wf w ->
  let w' := setScrolling false d w in
  isScrolling w' = false
  /\ timers w' = []
  /\ (forall later h,
        no_setScrolling later = true ->
        step (Expire h) (run later w') = run later w'
        /\ isScrolling (run later w') = false)
  /\ (forall entries,
        observer_callback entries w' = forEach entries on_entry w').
Proof.
  intros Hwf w'.
  destruct (setScrolling_false w d Hwf) as (Hs & Ht & _). fold w' in Hs, Ht.
  split; [exact Hs|]. split; [exact Ht|]. split.
  - intros later h Hno.
    destruct (released_run later w' Hs Ht Hno) as [Hs' Ht'].
    split; [|exact Hs']. simpl. apply expire_absent. rewrite Ht'. constructor.
  - intros entries. unfold observer_callback. rewrite Hs.
    by rewrite andb_false_r.
Qed.

End SuppressionClaims.

(** ** The section-change callback *)

Section CallbackClaims.

Context {U : Type}.
Implicit Types (w : Closure U) (es : list event).

Lemma setScrolling_frame state d w :
  let w' := setScrolling state d w in
  page w' = page w /\ calls w' = calls w /\ observed w' = observed w
  /\ cfg_disableDuringScroll w' = cfg_disableDuringScroll w
  /\ cfg_onSectionChange w' = cfg_onSectionChange w.
Proof.
  unfold setScrolling, setTimeout.
  destruct w as [f dd s st obs t n ts cs u]; simpl.
  destruct st, state; simpl; repeat split.
Qed.

Lemma expire_frame h w :
  let w' := expire h w in
  page w' = page w /\ calls w' = calls w /\ observed w' = observed w
  /\ cfg_disableDuringScroll w' = cfg_disableDuringScroll w
  /\ cfg_onSectionChange w' = cfg_onSectionChange w.
Proof. unfold expire. destruct (due h w); simpl; repeat split. Qed.

(** The configuration and the observation targets never change. *)
Lemma step_config e w :
  observed (step e w) = observed w
  /\ cfg_disableDuringScroll (step e w) = cfg_disableDuringScroll w
  /\ cfg_onSectionChange (step e w) = cfg_onSectionChange w.
Proof.
  destruct e as [entries|state d|h|dt]; simpl.
  - destruct (observer_callback_frame entries w) as (_ & _ & _ & _ & _ & ? & ? & ?).
    tauto.
  - destruct (setScrolling_frame state d w) as (_ & _ & ? & ? & ?). tauto.
  - destruct (expire_frame h w) as (_ & _ & ? & ? & ?). tauto.
  - tauto.
Qed.

Lemma run_config es : forall w,
  observed (run es w) = observed w
  /\ cfg_disableDuringScroll (run es w) = cfg_disableDuringScroll w
  /\ cfg_onSectionChange (run es w) = cfg_onSectionChange w.
Proof.
  induction es as [|e es IH]; intros w; simpl; [tauto|].
  destruct (IH (step e w)) as (-> & -> & ->). apply step_config.
Qed.

(** A walk over a batch with a callback that always returns: one
    invocation for each qualifying entry, in batch order. *)
Lemma forEach_calls (f : Callback U) entries : forall w,
  cfg_onSectionChange w = Some f ->
  (forall id u, returned (f id u) = true) ->
  exists w', forEach entries on_entry w = Normal w'
             /\ calls w' = calls w ++ qualifying entries.
Proof.
  induction entries as [|en entries IH]; intros w Hf Hret; simpl.
  - exists w. by rewrite app_nil_r.
  - unfold on_entry at 1, qualifying. simpl.
    destruct (isIntersecting en); simpl.
    + rewrite Hf. pose proof (Hret (el_id (target en)) (page w)) as Hr.
      destruct (f _ _) as [u|e u]; [|discriminate]. simpl.
      destruct (IH (set_page (calls w ++ [el_id (target en)]) u w) Hf)
        as (w' & Hw' & Hc); [assumption|].
      exists w'. split; [exact Hw'|]. rewrite Hc. simpl.
      by rewrite <- app_assoc.
    + apply IH; assumption.
Qed.

(** Whatever the callback does, a walk logs identifiers of the batch's
    targets only. *)
Lemma forEach_calls_in (P : option string -> Prop) entries : forall w,
  Forall (fun en => P (el_id (target en))) entries ->
  Forall P (calls w) ->
  Forall P (calls (state_of (forEach entries on_entry w))).
Proof.
  induction entries as [|en entries IH]; intros w Hen Hw; simpl; [done|].
  apply List.Forall_cons_iff in Hen as [Hhd Htl].
  assert (Hone : Forall P (calls (state_of (on_entry en w)))).
  { unfold on_entry. destruct (isIntersecting en); [|done].
    destruct (cfg_onSectionChange w) as [f|]; [|done].
    destruct (f _ _); simpl; apply Forall_app; split; auto. }
  destruct (on_entry en w) as [w1|e w1]; simpl in *; [|done].
  by apply IH.
Qed.

Lemma step_calls_in (P : option string -> Prop) e w :
  (forall entries, e = Visibility entries ->
                   Forall (fun en => P (el_id (target en))) entries) ->
  Forall P (calls w) -> Forall P (calls (step e w)).
Proof.
  intros He Hw. destruct e as [entries|state d|h|dt]; simpl.
  - unfold observer_callback.
    destruct (cfg_disableDuringScroll w && isScrolling w); [done|].
    apply forEach_calls_in; [by apply He | done].
  - by destruct (setScrolling_frame state d w) as (_ & -> & _).
  - by destruct (expire_frame h w) as (_ & -> & _).
  - done.
Qed.

Lemma observed_ids obs en :
  In (target en) obs -> In (el_id (target en)) (map el_id obs).
Proof. apply in_map. Qed.

Lemma run_calls_in obs es : forall w,
  Forall (targets_observed obs) es ->
  Forall (fun id => In id (map el_id obs)) (calls w) ->
  Forall (fun id => In id (map el_id obs)) (calls (run es w)).
Proof.
  induction es as [|e es IH]; intros w Hes Hw; simpl; [done|].
  apply List.Forall_cons_iff in Hes as [He Hes].
  apply IH; [exact Hes|]. apply step_calls_in; [|exact Hw].
  intros entries ->. simpl in He.
  eapply List.Forall_impl; [|exact He]. intros en. apply observed_ids.
Qed.

(** An event other than an unsuppressed delivery leaves the page and the
    log alone. *)
Lemma step_quiet e w :
  cfg_disableDuringScroll w = true ->
  isScrolling w = true \/ is_visibility e = false ->
  page (step e w) = page w /\ calls (step e w) = calls w.
Proof.
  intros Hdd Hcase. destruct e as [entries|state d|h|dt]; simpl.
  - destruct Hcase as [Hs|Hv]; [|discriminate].
    unfold observer_callback. by rewrite Hdd, Hs.
  - destruct (setScrolling_frame state d w) as (? & ? & _). tauto.
  - destruct (expire_frame h w) as (? & ? & _). tauto.
  - tauto.
Qed.

(** A property of the page that every callback invocation keeps is kept by
    a walk. *)
Lemma forEach_page_inv (P : U -> Prop) entries : forall w,
  (forall f id u, cfg_onSectionChange w = Some f -> P u -> P (state_of (f id u))) ->
  P (page w) ->
  P (page (state_of (forEach entries on_entry w))).
Proof.
  induction entries as [|en entries IH]; intros w Hf Hw; simpl; [done|].
  assert (Hone : P (page (state_of (on_entry en w)))
                 /\ cfg_onSectionChange (state_of (on_entry en w))
                    = cfg_onSectionChange w).
  { unfold on_entry. destruct (isIntersecting en); [|done].
    destruct (cfg_onSectionChange w) as [f|] eqn:Ef; [|done].
    specialize (Hf f (el_id (target en)) (page w) eq_refl Hw).
    destruct (f _ _); simpl in *; done. }
  destruct Hone as [Hp Hc].
  destruct (on_entry en w) as [w1|e w1]; simpl in *; [|done].
  apply IH; [|done]. rewrite Hc. exact Hf.
Qed.

Lemma observe_incl tgt obs s :
  In s (observe tgt obs) -> In s obs \/ s = tgt.
Proof.
  unfold observe. destruct (existsb _ obs); [tauto|].
  rewrite in_app_iff. simpl. intuition.
Qed.

Lemma observe_keeps tgt obs s : In s obs -> In s (observe tgt obs).
Proof.
  unfold observe. destruct (existsb _ obs); [done|].
  rewrite in_app_iff. tauto.
Qed.

Lemma observe_has tgt obs :
  exists s, In s (observe tgt obs) /\ el_node s = el_node tgt.
Proof.
  unfold observe. destruct (existsb _ obs) eqn:Hex.
  - apply existsb_exists in Hex as (s & Hin & Heq).
    exists s. split; [done | by apply Nat.eqb_eq].
  - exists tgt. rewrite in_app_iff. simpl. tauto.
Qed.

Lemma observe_all_incl secs : forall obs s,
  In s (fold_left (fun obs s => observe s obs) secs obs) ->
  In s obs \/ In s secs.
Proof.
  induction secs as [|x secs IH]; intros obs s; simpl; [tauto|].
  intros Hin. apply IH in Hin as [Hin|Hin]; [|tauto].
  apply observe_incl in Hin. intuition.
Qed.

Lemma observe_all_keeps secs : forall obs s,
  In s obs -> In s (fold_left (fun obs s => observe s obs) secs obs).
Proof.
  induction secs as [|x secs IH]; intros obs s Hin; simpl; [done|].
  apply IH. by apply observe_keeps.
Qed.

Lemma observe_all_has secs : forall obs s,
  In s secs ->
  exists s', In s' (fold_left (fun obs s => observe s obs) secs obs)
             /\ el_node s' = el_node s.
Proof.
  induction secs as [|x secs IH]; intros obs s; simpl; [tauto|].
  intros [->|Hin].
  - destruct (observe_has s obs) as (s' & Hin' & Heq).
    exists s'. split; [by apply observe_all_keeps | done].
  - by apply IH.
Qed.

(** With nothing suppressed, a callback that always returns is invoked
    once for every qualifying entry of every batch. *)
Lemma run_batches_calls (f : Callback U) batches : forall w,
  cfg_onSectionChange w = Some f ->
  isScrolling w = false ->
  (forall id u, returned (f id u) = true) ->
  calls (run (map Visibility batches) w)
  = calls w ++ concat (map qualifying batches).
Proof.
  induction batches as [|b batches IH]; intros w Hf Hs Hret; simpl.
  - by rewrite app_nil_r.
  - destruct (observer_callback_frame b w)
      as (Hs' & _ & _ & _ & _ & _ & _ & Hf').
    rewrite IH; [|congruence|congruence|exact Hret].
    unfold observer_callback. rewrite Hs, andb_false_r.
    destruct (forEach_calls f b w Hf Hret) as (w' & Hw' & Hc).
    rewrite Hw'. simpl. rewrite Hc. by rewrite app_assoc.
Qed.

(** C2 (amended): for an observer created with [disableDuringScroll] on
    (the default, and what [initDocsObserver] asks for), along every
    interleaving of visibility batches, [setScrolling] calls, timer
    expiries and time steps: an event changes the page or invokes the
    callback only if it is a visibility batch arriving while the flag is
    clear; and every identifier the callback was invoked with is the [id]
    attribute of a region the observer watches. *)
Theorem active_changes_only_unsuppressed options t u w0 es e :
  createSectionObserver options t u = inr w0 ->
  disableDuringScroll options <> Some false ->
  Forall (targets_observed (observed w0)) (es ++ [e]) ->
  let w := run es w0 in
  let w' := step e w in
  (isScrolling w = true \/ is_visibility e = false ->
   page w' = page w /\ calls w' = calls w)
  /\ Forall (fun id => In id (map el_id (observed w'))) (calls w').
Proof.
  intros Hcreate Hdd Hobs w w'.
  assert (Hcfg : cfg_disableDuringScroll w0 = true /\ calls w0 = []).
  { unfold createSectionObserver in Hcreate.
    destruct (rootMargin_parses _); [|discriminate].
    destruct (sections options); [|discriminate].
    injection Hcreate as <-. simpl. split; [|done].
    destruct (disableDuringScroll options) as [[|]|]; simpl; congruence. }
  destruct Hcfg as [Hcfg Hcalls0].
  destruct (run_config es w0) as (_ & Hddw & _). fold w in Hddw.
  split.
  - apply step_quiet. congruence.
  - assert (Hw' : w' = run (es ++ [e]) w0)
      by (unfold run; by rewrite fold_left_app).
    destruct (run_config (es ++ [e]) w0) as (Ho & _).
    rewrite Hw', Ho.
    apply run_calls_in; [exact Hobs|]. rewrite Hcalls0. constructor.
Qed.

(** The walk over a batch against the callback applied to the qualifying
    identifiers in turn: the same page, the same outcome, and one entry in
    the log for each invocation made. *)
Lemma forEach_walk (f : Callback U) entries : forall w,
  cfg_onSectionChange w = Some f ->
  let r := forEach entries on_entry w in
  page (state_of r) = state_of (invoke_all f (qualifying entries) (page w))
  /\ returned r = returned (invoke_all f (qualifying entries) (page w))
  /\ calls (state_of r)
     = calls w ++ take (attempted f (qualifying entries) (page w))
                       (qualifying entries).
Proof.
  induction entries as [|en entries IH]; intros w Hf; simpl.
  - by rewrite app_nil_r.
  - replace (on_entry en w)
      with (if isIntersecting en then
              match f (el_id (target en)) (page w) with
              | Normal u1 =>
                  Normal (set_page (calls w ++ [el_id (target en)]) u1 w)
              | Throw e u1 =>
                  Throw e (set_page (calls w ++ [el_id (target en)]) u1 w)
              end
            else Normal w)
      by (unfold on_entry; by rewrite Hf).
    unfold qualifying. simpl.
    destruct (isIntersecting en); simpl.
    + destruct (f (el_id (target en)) (page w)) as [u1|e u1]; simpl.
      * destruct (IH (set_page (calls w ++ [el_id (target en)]) u1 w) Hf)
          as (Hp & Hr & Hc).
        simpl in Hp, Hr, Hc. split; [exact Hp|]. split; [exact Hr|].
        rewrite Hc. by rewrite <- app_assoc.
      * repeat split.
    + apply IH. exact Hf.
Qed.

Lemma attempted_returned (f : Callback U) ids : forall u,
  returned (invoke_all f ids u) = true -> attempted f ids u = length ids.
Proof.
  induction ids as [|id ids IH]; intros u; simpl; [done|].
  destruct (f id u) as [u1|e u1]; simpl; [|discriminate].
  intros Hr. f_equal. by apply IH.
Qed.

Lemma forEach_walk_returned (f : Callback U) entries w :
  cfg_onSectionChange w = Some f ->
  returned (forEach entries on_entry w) = true ->
  calls (state_of (forEach entries on_entry w)) = calls w ++ qualifying entries.
Proof.
  intros Hf Hr. destruct (forEach_walk f entries w Hf) as (_ & Hret & Hc).
  rewrite Hc, attempted_returned by congruence.
  by rewrite firstn_all.
Qed.

(** Without a callback a walk does nothing. *)
Lemma forEach_without_callback entries : forall w,
  cfg_onSectionChange w = None -> forEach entries on_entry w = Normal w.
Proof.
  induction entries as [|en entries IH]; intros w Hf; simpl; [done|].
  unfold on_entry at 1. rewrite Hf.
  destruct (isIntersecting en); simpl; by apply IH.
Qed.

(** One qualifying entry, delivered while the guard lets it through, is
    one invocation, whether the callback returns or throws. *)
Lemma single_entry_logged (f : Callback U) en w :
  cfg_onSectionChange w = Some f ->
  cfg_disableDuringScroll w && isScrolling w = false ->
  isIntersecting en = true ->
  calls (step (Visibility [en]) w) = calls w ++ [el_id (target en)].
Proof.
  intros Hf Hg Hen. simpl. unfold observer_callback. rewrite Hg. simpl.
  unfold on_entry. rewrite Hen, Hf.
  by destruct (f _ _).
Qed.


(** C10 (amended): an observer created with [disableDuringScroll = false]
    never looks at the flag.  In every state it reaches, armed or not, a
    batch is walked entry by entry: the callback, when one is supplied,
    is invoked for the qualifying entries in turn until an invocation
    throws, so for every one of them when each invocation returns, and
    the page is left as these invocations leave it; without a callback
    nothing happens.  The same batch is dropped whole by an observer
    created with the default while its flag is set. *)
Theorem flag_ignored_when_not_disabled
    secs off (cb : option (Callback U)) t (u : U) w0 es entries :
  createSectionObserver (mkOptions (Some secs) off cb (Some false)) t u
  = inr w0 ->
  let w := run es w0 in
  let r := observer_callback entries w in
  r = forEach entries on_entry w
  /\ (forall f, cb = Some f ->
        page (state_of r)
        = state_of (invoke_all f (qualifying entries) (page w))
        /\ returned r = returned (invoke_all f (qualifying entries) (page w))
        /\ calls (state_of r)
           = calls w ++ take (attempted f (qualifying entries) (page w))
                             (qualifying entries)
        /\ (returned r = true ->
            calls (state_of r) = calls w ++ qualifying entries))
  /\ (cb = None -> r = Normal w)
  /\ (forall wd,
        createSectionObserver (mkOptions (Some secs) off cb None) t u
        = inr wd ->
        isScrolling (run es wd) = true ->
        observer_callback entries (run es wd) = Normal (run es wd)).
Proof.
  intros Hcreate w r.
  assert (Hcfg : cfg_disableDuringScroll w0 = false
                 /\ cfg_onSectionChange w0 = cb).
  { unfold createSectionObserver in Hcreate. simpl in Hcreate.
    destruct (rootMargin_parses _); [|discriminate].
    by injection Hcreate as <-. }
  destruct Hcfg as [Hdd0 Hcb0].
  destruct (run_config es w0) as (_ & Hdd & Hf).
  fold w in Hdd, Hf. rewrite Hdd0 in Hdd. rewrite Hcb0 in Hf.
  assert (Heq : r = forEach entries on_entry w)
    by (unfold r, observer_callback; by rewrite Hdd).
  split; [exact Heq|]. split; [|split].
  - intros f ->. rewrite Heq.
    destruct (forEach_walk f entries w Hf) as (Hp & Hr & Hc).
    split; [exact Hp|]. split; [exact Hr|]. split; [exact Hc|].
    by apply forEach_walk_returned with (f := f).
  - intros ->. rewrite Heq. by apply forEach_without_callback.
  - intros wd Hwd Hs.
    assert (Hddd : cfg_disableDuringScroll wd = true).
    { unfold createSectionObserver in Hwd. simpl in Hwd.
      destruct (rootMargin_parses _); [|discriminate].
      by injection Hwd as <-. }
    destruct (run_config es wd) as (_ & Hdd' & _).
    unfold observer_callback. by rewrite Hdd', Hddd, Hs.
Qed.

End CallbackClaims.

(** ** The active link *)

Section ActiveLink.

Variable escaped_query : string -> list (option string) -> query_result.
Variable activeClass : string.
Variable stickyOffset : float.

Local Abbreviation lit := (highlight escaped_query activeClass).
Local Abbreviation relink := (relinked escaped_query activeClass).
Local Abbreviation query := (querySelector_href escaped_query).
Local Abbreviation unmark := (remove_class activeClass).
Local Abbreviation mark := (add_class activeClass).

Lemma contains_remove cl : contains activeClass (classList_remove activeClass cl) = false.
Proof.
  unfold contains, classList_remove. induction cl as [|c cl IH]; simpl; [done|].
  destruct (String.eqb activeClass c) eqn:E; simpl; [done|]. by rewrite E.
Qed.

Lemma contains_add cl : contains activeClass (classList_add activeClass cl) = true.
Proof.
  unfold classList_add. destruct (contains activeClass cl) eqn:E; [done|].
  unfold contains. rewrite existsb_app. simpl.
  by rewrite String.eqb_refl, orb_true_r.
Qed.

Lemma remove_remove cl :
  classList_remove activeClass (classList_remove activeClass cl)
  = classList_remove activeClass cl.
Proof.
  unfold classList_remove. induction cl as [|c cl IH]; simpl; [done|].
  destruct (String.eqb activeClass c) eqn:E; simpl; [done|].
  by rewrite E, IH.
Qed.

Lemma remove_add cl :
  classList_remove activeClass (classList_add activeClass cl)
  = classList_remove activeClass cl.
Proof.
  unfold classList_add. destruct (contains activeClass cl); [done|].
  unfold classList_remove. rewrite List.filter_app. simpl.
  by rewrite String.eqb_refl, app_nil_r.
Qed.

Lemma unmark_unmark l : unmark (unmark l) = unmark l.
Proof. unfold remove_class. simpl. by rewrite remove_remove. Qed.

Lemma unmark_mark l : unmark (mark l) = unmark l.
Proof. unfold remove_class, add_class. simpl. by rewrite remove_add. Qed.

Lemma marked_unmark l : marked activeClass (unmark l) = false.
Proof. apply contains_remove. Qed.

Lemma marked_mark l : marked activeClass (mark l) = true.
Proof. apply contains_add. Qed.

Lemma map_unmark_idem ls : map unmark (map unmark ls) = map unmark ls.
Proof.
  rewrite map_map. apply map_ext. intros l. apply unmark_unmark.
Qed.

Lemma map_unmark_alter ls : forall i,
  map unmark (alter mark i ls) = map unmark ls.
Proof.
  induction ls as [|l ls IH]; intros [|i]; simpl; try done.
  - by rewrite unmark_mark.
  - f_equal. apply IH.
Qed.

Lemma count_unmarked ls : count_marked activeClass (map unmark ls) = 0.
Proof.
  unfold count_marked. induction ls as [|l ls IH]; simpl; [done|].
  by rewrite marked_unmark.
Qed.

Lemma count_alter ls : forall i,
  count_marked activeClass ls = 0 ->
  count_marked activeClass (alter mark i ls) <= 1.
Proof.
  unfold count_marked.
  induction ls as [|l ls IH]; intros i H0.
  - destruct i; simpl; lia.
  - simpl in H0. destruct (marked activeClass l) eqn:E; simpl in H0; [lia|].
    destruct i as [|i]; simpl.
    + destruct (marked activeClass (mark l)); simpl; lia.
    + rewrite E. by apply IH.
Qed.

Lemma lookup_unmarked ls j l :
  map unmark ls !! j = Some l -> marked activeClass l = false.
Proof.
  revert j. induction ls as [|x ls IH]; intros [|j]; simpl; try done.
  - intros [= <-]. apply marked_unmark.
  - apply IH.
Qed.

Lemma map_href_unmark ls : map href (map unmark ls) = map href ls.
Proof. rewrite map_map. by apply map_ext. Qed.

Lemma map_href_alter ls : forall i, map href (alter mark i ls) = map href ls.
Proof.
  induction ls as [|l ls IH]; intros [|i]; simpl; try done.
  f_equal. apply IH.
Qed.

(** With a class that is no token and a link to start with, [highlight]
    throws and changes nothing. *)
Lemma highlight_invalid sectionId pg e :
  token_error activeClass = Some e -> navLinks pg <> [] ->
  lit sectionId pg = Throw e pg.
Proof.
  intros He Hne. unfold highlight. rewrite He.
  by destruct (navLinks pg).
Qed.

(** Otherwise it goes through all of its steps. *)
Lemma highlight_valid sectionId pg :
  token_error activeClass = None \/ navLinks pg = [] ->
  lit sectionId pg
  = match query sectionId (map unmark (navLinks pg)) with
    | BadSelector => Throw SyntaxError (set_navLinks (map unmark (navLinks pg)) pg)
    | NoMatch => Normal (set_navLinks (map unmark (navLinks pg)) pg)
    | Matched i =>
        Normal (set_navLinks (alter mark i (map unmark (navLinks pg))) pg)
    end.
Proof.
  intros [Hv|Hnil]; unfold highlight.
  - rewrite Hv. reflexivity.
  - rewrite Hnil. by destruct (token_error activeClass).
Qed.

Lemma relinked_invalid sectionId ls e :
  token_error activeClass = Some e -> ls <> [] -> relink sectionId ls = ls.
Proof.
  intros He Hne. unfold relinked. rewrite He. by destruct ls.
Qed.

Lemma relinked_valid sectionId ls :
  token_error activeClass = None \/ ls = [] ->
  relink sectionId ls
  = match query sectionId (map unmark ls) with
    | Matched i => alter mark i (map unmark ls)
    | _ => map unmark ls
    end.
Proof.
  intros [Hv|Hnil]; unfold relinked.
  - rewrite Hv. reflexivity.
  - rewrite Hnil. by destruct (token_error activeClass).
Qed.

(** The two cases of [highlight]. *)
Lemma token_cases (ls : list NavLink) :
  (exists e, token_error activeClass = Some e /\ ls <> [])
  \/ (token_error activeClass = None \/ ls = []).
Proof.
  destruct (token_error activeClass) as [e|].
  - destruct ls as [|l ls].
    + right. right. reflexivity.
    + left. exists e. split; [reflexivity | discriminate].
  - right. left. reflexivity.
Qed.

Lemma highlight_links sectionId pg :
  state_of (lit sectionId pg)
  = set_navLinks (relink sectionId (navLinks pg)) pg.
Proof.
  destruct (token_cases (navLinks pg)) as [(e & He & Hne)|Hv].
  - rewrite (highlight_invalid _ _ _ He Hne), (relinked_invalid _ _ _ He Hne).
    by destruct pg.
  - rewrite (highlight_valid _ _ Hv), (relinked_valid _ _ Hv).
    by destruct (query sectionId (map unmark (navLinks pg))).
Qed.

Lemma unmark_relinked sectionId ls :
  map unmark (relink sectionId ls) = map unmark ls.
Proof.
  destruct (token_cases ls) as [(e & He & Hne)|Hv].
  - by rewrite (relinked_invalid _ _ _ He Hne).
  - rewrite (relinked_valid _ _ Hv). destruct (query _ _).
    + by rewrite map_unmark_alter, map_unmark_idem.
    + apply map_unmark_idem.
    + apply map_unmark_idem.
Qed.

Lemma relinked_nil sectionId ls : relink sectionId ls = [] <-> ls = [].
Proof.
  pose proof (unmark_relinked sectionId ls) as H.
  split; intros E.
  - rewrite E in H. simpl in H. by destruct ls.
  - subst ls. simpl in H. by destruct (relink sectionId []).
Qed.

Lemma highlight_idempotent sectionId pg :
  lit sectionId (state_of (lit sectionId pg))
  = lit sectionId pg.
Proof.
  destruct (token_cases (navLinks pg)) as [(e & He & Hne)|Hv].
  - rewrite (highlight_invalid sectionId pg e He Hne). simpl.
    apply (highlight_invalid sectionId pg e He Hne).
  - rewrite highlight_links.
    assert (Hv' : token_error activeClass = None
                  \/ navLinks (set_navLinks (relink sectionId (navLinks pg)) pg)
                     = []).
    { destruct Hv as [Hv|Hnil]; [by left|right]. simpl.
      by apply relinked_nil. }
    rewrite (highlight_valid _ _ Hv'), (highlight_valid _ _ Hv). simpl.
    rewrite unmark_relinked.
    by destruct (query sectionId (map unmark (navLinks pg))).
Qed.

Lemma count_relinked_valid sectionId ls :
  token_error activeClass = None \/ ls = [] ->
  count_marked activeClass (relink sectionId ls) <= 1.
Proof.
  intros Hv. rewrite (relinked_valid _ _ Hv). destruct (query _ _).
  - apply count_alter, count_unmarked.
  - rewrite count_unmarked. lia.
  - rewrite count_unmarked. lia.
Qed.

Lemma count_relinked sectionId ls :
  count_marked activeClass ls <= 1 ->
  count_marked activeClass (relink sectionId ls) <= 1.
Proof.
  intros Hle. destruct (token_cases ls) as [(e & He & Hne)|Hv].
  - by rewrite (relinked_invalid _ _ _ He Hne).
  - by apply count_relinked_valid.
Qed.

Lemma marked_relinked sectionId ls j l :
  token_error activeClass = None \/ ls = [] ->
  relink sectionId ls !! j = Some l ->
  marked activeClass l = true <-> query sectionId (map unmark ls) = Matched j.
Proof.
  intros Hv. rewrite (relinked_valid _ _ Hv).
  destruct (query _ _) as [i| |].
  - destruct (decide (i = j)) as [->|Hne].
    + rewrite list_lookup_alter_eq.
      destruct (map unmark ls !! j); simpl; [|done].
      intros [= <-]. by rewrite marked_mark.
    + rewrite list_lookup_alter_ne by done. intros Hl.
      rewrite (lookup_unmarked _ _ _ Hl). split; [done|congruence].
  - intros Hl. rewrite (lookup_unmarked _ _ _ Hl). split; done.
  - intros Hl. rewrite (lookup_unmarked _ _ _ Hl). split; done.
Qed.

(** On a class list of tokens, a class that is no token marks nothing. *)
Lemma marked_invalid e l :
  token_error activeClass = Some e ->
  Forall (fun c => token_error c = None) (classList l) ->
  marked activeClass l = false.
Proof.
  intros He Hok. unfold marked, contains.
  destruct (existsb _ _) eqn:Hex; [|done].
  apply existsb_exists in Hex as (c & Hin & Heq).
  apply String.eqb_eq in Heq. subst c.
  rewrite List.Forall_forall in Hok. specialize (Hok _ Hin). congruence.
Qed.

Lemma count_invalid e ls :
  token_error activeClass = Some e ->
  Forall (fun l => Forall (fun c => token_error c = None) (classList l)) ls ->
  count_marked activeClass ls = 0.
Proof.
  intros He. unfold count_marked.
  induction 1 as [|l ls Hl _ IH]; simpl; [done|].
  by rewrite (marked_invalid e l He Hl).
Qed.

(** Class lists stay lists of tokens. *)
Lemma class_lists_relinked sectionId ls :
  Forall (fun l => Forall (fun c => token_error c = None) (classList l)) ls ->
  Forall (fun l => Forall (fun c => token_error c = None) (classList l))
         (relink sectionId ls).
Proof.
  intros Hok. destruct (token_cases ls) as [(e & He & Hne)|Hv].
  - by rewrite (relinked_invalid _ _ _ He Hne).
  - rewrite (relinked_valid _ _ Hv).
    assert (Hun : Forall (fun l => Forall (fun c => token_error c = None)
                                          (classList l)) (map unmark ls)).
    { apply List.Forall_map. eapply List.Forall_impl; [|exact Hok].
      intros l Hl. simpl. unfold classList_remove.
      rewrite List.Forall_forall in Hl |- *.
      intros c Hc. apply filter_In in Hc as [Hc _]. by apply Hl. }
    destruct (query _ _) as [i| |]; [|done|done].
    apply Forall_alter; [done|]. intros l0 Hl0 Hp. simpl.
    unfold classList_add.
    destruct (contains activeClass (classList l0)); [done|].
    apply Forall_app. split; [done|].
    constructor; [|constructor].
    destruct Hv as [Hv|Hnil]; [done|]. by subst ls.
Qed.

(** An engine that accepts every identifier makes [highlight] return,
    when the class is a token. *)
Lemma highlight_returns sectionId pg :
  (forall s hs, escaped_query s hs <> BadSelector) ->
  token_error activeClass = None ->
  returned (lit sectionId pg) = true.
Proof.
  intros Hok Hv. rewrite highlight_valid by (by left).
  unfold querySelector_href.
  destruct (selector_safe sectionId).
  - by destruct (list_find _ _) as [[i l]|].
  - specialize (Hok sectionId (map href (map unmark (navLinks pg)))).
    by destruct (escaped_query _ _).
Qed.

End ActiveLink.

Section ActiveLinkClaims.

Variable escaped_query : string -> list (option string) -> query_result.
Variable activeClass : string.
Variable stickyOffset : float.

(** C8: after an active-change, by the click handler ([setActiveLink]) or
    by the observer ([onSectionChange]), at most one navigation link
    carries the active class: every link is unmarked first, then the link
    the selector resolves, and no other, is marked; none is when the
    selector resolves to nothing.  When the active class is no class
    token and the sidebar has a link, the change throws at the first link
    and leaves the page as it was, where no link carries the class, class
    lists being lists of tokens.  The [href]s are left as they were. *)
Theorem at_most_one_active_link sectionId pg :
  class_lists_ok pg ->
  let r := highlight escaped_query activeClass sectionId pg in
  let pg' := state_of r in
  count_marked activeClass (navLinks pg') <= 1
  /\ (forall j l,
        navLinks pg' !! j = Some l ->
        marked activeClass l = true
        <-> token_error activeClass = None
            /\ querySelector_href escaped_query sectionId
                 (map (remove_class activeClass) (navLinks pg)) = Matched j)
  /\ (forall e,
        token_error activeClass = Some e -> navLinks pg <> [] ->
        r = Throw e pg)
  /\ map href (navLinks pg') = map href (navLinks pg)
  /\ class_lists_ok pg'
  /\ (forall id,
        docs_onSectionChange escaped_query activeClass id pg
        = highlight escaped_query activeClass (interpolate id) pg)
  /\ setActiveLink escaped_query activeClass sectionId pg
     = highlight escaped_query activeClass sectionId pg.
Proof.
  intros Hok r pg'. unfold pg', r. rewrite highlight_links. simpl.
  split; [|split; [|split; [|split; [|split; [|split; reflexivity]]]]].
  - destruct (token_cases activeClass (navLinks pg)) as [(e & He & Hne)|Hv].
    + rewrite (relinked_invalid _ _ _ _ _ He Hne).
      rewrite (count_invalid _ e _ He Hok). lia.
    + by apply count_relinked_valid.
  - intros j l Hl.
    destruct (token_cases activeClass (navLinks pg)) as [(e & He & Hne)|Hv].
    + rewrite (relinked_invalid _ _ _ _ _ He Hne) in Hl.
      assert (Hm : marked activeClass l = false).
      { apply (marked_invalid _ e); [exact He|].
        unfold class_lists_ok in Hok. rewrite List.Forall_forall in Hok.
        apply Hok. apply list_elem_of_In, list_elem_of_lookup. by exists j. }
      rewrite Hm, He. split; [done|]. intros [? _]. discriminate.
    + rewrite (marked_relinked _ _ _ _ _ _ Hv Hl).
      destruct Hv as [Hv|Hnil]; [tauto|].
      rewrite Hnil in Hl.
      assert (E : relinked escaped_query activeClass sectionId [] = [])
        by (by apply relinked_nil).
      rewrite E in Hl. discriminate.
  - intros e He Hne. by apply highlight_invalid.
  - pose proof (unmark_relinked escaped_query activeClass sectionId (navLinks pg))
      as H.
    apply (f_equal (map href)) in H. by rewrite !map_href_unmark in H.
  - by apply class_lists_relinked.
Qed.

(** C7 (amended): a click on a link whose target id matches no element of
    the document raises no error.  The handler returns normally and
    leaves everything as it was: the marked link, the scroll commands
    issued, the flag and the pending timer. *)
Theorem click_on_missing_target_is_noop i (w : Closure Page) link h :
  navLinks (page w) !! i = Some link ->
  href link = Some h ->
  getElementById (substring1 h) (elements (page w)) = None ->
  click_handler escaped_query activeClass stickyOffset i (page w)
  = Normal (page w)
  /\ page_step escaped_query activeClass stickyOffset (Click i) w = w.
Proof.
  intros Hi Hh Hnone.
  assert (Hclick : click_handler escaped_query activeClass stickyOffset i (page w)
                   = Normal (page w)).
  { unfold click_handler. by rewrite Hi, Hh, Hnone. }
  split; [exact Hclick|]. simpl. rewrite Hclick. by destruct w.
Qed.

(** C5 (amended): the observer does not de-duplicate.  When a callback
    is supplied and the guard lets a batch through, the callback is
    invoked for the qualifying entries of the batch in turn, in delivery
    order, until an invocation throws; the page is left as these
    invocations leave it, and when the walk returns every qualifying
    entry has had its invocation.  With a callback that always returns
    and the flag clear, this is so for every batch of a sequence.  Two
    consecutive deliveries of a qualifying entry for the same region are
    two invocations with the same identifier, whether the callback
    returns or throws; with the docs callback the second invocation
    leaves the links exactly as the first left them. *)
Theorem callback_invoked_per_qualifying_entry
    {U : Type} (w : Closure U) (f : Callback U) entries en sectionId pg :
  cfg_onSectionChange w = Some f ->
  cfg_disableDuringScroll w && isScrolling w = false ->
  let r := observer_callback entries w in
  (calls (state_of r)
   = calls w ++ take (attempted f (qualifying entries) (page w))
                     (qualifying entries)
   /\ page (state_of r) = state_of (invoke_all f (qualifying entries) (page w))
   /\ (returned r = true -> calls (state_of r) = calls w ++ qualifying entries))
  /\ (isIntersecting en = true ->
      calls (run [Visibility [en]; Visibility [en]] w)
      = calls w ++ [el_id (target en); el_id (target en)])
  /\ ((forall id u, returned (f id u) = true) -> isScrolling w = false ->
      forall batches,
        calls (run (map Visibility batches) w)
        = calls w ++ concat (map qualifying batches))
  /\ highlight escaped_query activeClass sectionId
       (state_of (highlight escaped_query activeClass sectionId pg))
     = highlight escaped_query activeClass sectionId pg.
Proof.
  intros Hf Hg r.
  assert (Heq : r = forEach entries on_entry w)
    by (unfold r, observer_callback; by rewrite Hg).
  split; [|split; [|split]].
  - rewrite Heq. destruct (forEach_walk f entries w Hf) as (Hp & Hr & Hc).
    split; [exact Hc|]. split; [exact Hp|].
    by apply forEach_walk_returned with (f := f).
  - intros Hen.
    pose proof (single_entry_logged f en w Hf Hg Hen) as H1.
    destruct (observer_callback_frame [en] w)
      as (Hs1 & _ & _ & _ & _ & _ & Hd1 & Hf1).
    change (state_of (observer_callback [en] w))
      with (step (Visibility [en]) w) in Hs1, Hd1, Hf1.
    assert (Hg1 : cfg_disableDuringScroll (step (Visibility [en]) w)
                  && isScrolling (step (Visibility [en]) w) = false)
      by (by rewrite Hs1, Hd1).
    pose proof (single_entry_logged f en (step (Visibility [en]) w)
                  (eq_trans Hf1 Hf) Hg1 Hen) as H2.
    change (run [Visibility [en]; Visibility [en]] w)
      with (step (Visibility [en]) (step (Visibility [en]) w)).
    rewrite H2, H1. by rewrite <- app_assoc.
  - intros Hret Hs batches. by apply run_batches_calls with (f := f).
  - apply highlight_idempotent.
Qed.

(** On a page that runs both helpers, with at most one link marked at the
    start, at most one link is marked at any time. *)
Lemma one_active_link_invariant es : forall w : Closure Page,
  cfg_onSectionChange w = Some (docs_onSectionChange escaped_query activeClass) ->
  count_marked activeClass (navLinks (page w)) <= 1 ->
  count_marked activeClass
    (navLinks (page (page_run escaped_query activeClass stickyOffset es w))) <= 1.
Proof.
  induction es as [|e es IH]; intros w Hf Hw; simpl; [done|].
  assert (Hstep : cfg_onSectionChange
                    (page_step escaped_query activeClass stickyOffset e w)
                  = cfg_onSectionChange w
                  /\ count_marked activeClass
                       (navLinks (page (page_step escaped_query activeClass
                                          stickyOffset e w))) <= 1).
  { destruct e as [e|i]; simpl.
    - destruct (step_config e w) as (_ & _ & Hc). split; [exact Hc|].
      destruct e as [entries|state d|h|dt]; simpl.
      + unfold observer_callback.
        destruct (cfg_disableDuringScroll w && isScrolling w); [done|].
        apply (forEach_page_inv
                 (fun pg => count_marked activeClass (navLinks pg) <= 1));
          [|done].
        intros f id u Hf'. rewrite Hf in Hf'. injection Hf' as <-. intros Hu.
        unfold docs_onSectionChange. rewrite highlight_links. simpl.
        by apply count_relinked.
      + by destruct (setScrolling_frame state d w) as (-> & _).
      + by destruct (expire_frame h w) as (-> & _).
      + done.
    - split; [done|]. unfold click_handler.
      destruct (navLinks (page w) !! i) as [link|]; [|done].
      destruct (href link) as [h|]; [|done].
      destruct (getElementById _ _); [|done].
      unfold setActiveLink.
      pose proof (highlight_links escaped_query activeClass (substring1 h) (page w))
        as Hl.
      destruct (highlight _ _ _ _) as [pg'|x pg']; simpl in *; subst pg';
        simpl; by apply count_relinked. }
  destruct Hstep as [Hc Hcount]. apply IH; [congruence | exact Hcount].
Qed.

(** A click leaves the suppression mechanism of the observer alone. *)
Lemma click_frame i (w : Closure Page) :
  frame w (page_step escaped_query activeClass stickyOffset (Click i) w).
Proof. unfold frame. simpl. tauto. Qed.

Lemma wf_page_step e (w : Closure Page) :
  wf w -> wf (page_step escaped_query activeClass stickyOffset e w).
Proof.
  destruct e as [e|i]; [apply wf_step|]. intros Hwf. exact Hwf.
Qed.

Lemma wf_page_run es : forall w : Closure Page,
  wf w -> wf (page_run escaped_query activeClass stickyOffset es w).
Proof.
  induction es as [|e es IH]; intros w Hwf; simpl; [done|].
  apply IH. by apply wf_page_step.
Qed.

Lemma handles_from_page_run k es : forall w : Closure Page,
  handles_from k w ->
  handles_from k (page_run escaped_query activeClass stickyOffset es w).
Proof.
  induction es as [|e es IH]; intros w H; simpl; [done|].
  apply IH. destruct e as [e|i]; [by apply handles_from_step | exact H].
Qed.

(** C3 (amended): on a page that runs the observer and the navigation
    clicks, the timer table of the observer never holds more than one
    timer.  [setScrolling(true, d)] is the only call that arms
    suppression: it leaves exactly the timer it has just created, due
    [delay_of d] ms after the time of the call, and no handle issued
    before the call ever expires afterwards.  A click on a navigation
    link arms nothing and cancels nothing: the flag, the pending timer
    and its due time are as they were. *)
Theorem one_timer_and_clicks_arm_none
    (options : Options Page) t pg w0 es d :
  createSectionObserver options t pg = inr w0 ->
  let w := page_run escaped_query activeClass stickyOffset es w0 in
  let w' := setScrolling true d w in
  length (timers w) <= 1
  /\ timers w' = [mkTimer (next_handle w) (now w + delay_of d)]
  /\ (forall h later,
        h < next_handle w ->
        page_step escaped_query activeClass stickyOffset (Observer (Expire h))
          (page_run escaped_query activeClass stickyOffset later w')
        = page_run escaped_query activeClass stickyOffset later w')
  /\ (forall i,
        let wc := page_step escaped_query activeClass stickyOffset (Click i) w in
        isScrolling wc = isScrolling w /\ timers wc = timers w
        /\ scrollTimeout wc = scrollTimeout w /\ now wc = now w).
Proof.
  intros Hcreate w w'.
  assert (Hwf : wf w) by (apply wf_page_run; eapply wf_created; exact Hcreate).
  destruct (setScrolling_true w d Hwf) as (_ & Ht & _ & Hn & _).
  fold w' in Ht, Hn.
  split; [by apply wf_at_most_one|]. split; [exact Ht|]. split.
  - intros h later Hh. simpl. apply expire_absent.
    assert (Hfrom : handles_from (next_handle w)
                      (page_run escaped_query activeClass stickyOffset later w')).
    { apply handles_from_page_run. split; [|lia].
      rewrite Ht. constructor; [simpl; lia | constructor]. }
    destruct Hfrom as [Hts _].
    eapply List.Forall_impl; [|exact Hts]. simpl. intros tm Htm. lia.
  - intros i. simpl. tauto.
Qed.

End ActiveLinkClaims.

(** ** The sample page at work *)

Section SamplePage.

Import Sample.

Local Abbreviation page_run' := (page_run strict "active" 120).

Example toInt32_default : toInt32 1000 = 1000%Z.
Proof. reflexivity. Qed.

Example toInt32_wraps : toInt32 (2 ^ 31) = (- 2 ^ 31)%Z.
Proof. reflexivity. Qed.

Example intro_is_safe : selector_safe "intro" = true.
Proof. reflexivity. Qed.

Example quote_is_not_safe :
  selector_safe (String (ascii_of_nat 34) "intro") = false.
Proof. reflexivity. Qed.

Example click_on_api :
  click_handler strict "active" 120 2 doc
  = Normal (mkPage [ mkNavLink (Some "#intro") [];
                     mkNavLink (Some "#usage") [];
                     mkNavLink (Some "#api") ["active"];
                     mkNavLink (Some "#missing") [] ]
                   [intro; usage; api] 0 [1580%float]).
Proof. reflexivity. Qed.

Example docs_created :
  initDocsObserver strict "active" no_sections no_sidebar
    (mkDocsOptions None None None) 0 doc
  = inr docs.
Proof. reflexivity. Qed.

Example eager_created : createSectionObserver eager_options 0 doc = inr eager.
Proof. reflexivity. Qed.

(** C1, counterexample: a click on the link to [api] marks that link and
    scrolls, but leaves the flag clear and arms no timer; the stale batch
    for [intro] that arrives 300 ms later moves the mark to [intro]. *)
Lemma click_leaves_suppression_off :
  let w1 := page_run' [Click 2] docs in
  let w2 := page_run' [Observer (Elapse 300);
                       Observer (Visibility [visible intro])] w1 in
  hrefs w1 = [Some "#api"] /\ scrolls (page w1) = [1580%float]
  /\ isScrolling w1 = false /\ timers w1 = []
  /\ calls w2 = [Some "intro"] /\ hrefs w2 = [Some "#intro"]
  /\ hrefs w2 <> [Some "#api"].
Proof. vm_compute. repeat split; discriminate. Qed.

Lemma suppression_window_drops_events_witness :
  let w := page_run' [Click 2] docs in
  let w1 := setScrolling true None w in
  let w2 := run [Elapse 300; Visibility [visible intro]] w1 in
  wf w /\ timers w1 = [mkTimer 1 1000] /\ calls w2 = []
  /\ hrefs w2 = [Some "#api"].
Proof.
  intros w w1 w2.
  assert (Hwf : wf w) by reflexivity.
  destruct (suppression_window_drops_events w None
              [Elapse 300; Visibility [visible intro]] Hwf
              eq_refl eq_refl eq_refl)
    as (_ & Ht & _ & Hp & Hc & _).
  split; [exact Hwf|]. split; [exact Ht|].
  fold w1 in Hp, Hc. fold w2 in Hp, Hc.
  split; [by rewrite Hc|]. unfold hrefs. by rewrite Hp.
Defined.

(** C2, counterexample: with [disableDuringScroll = false] a batch that
    arrives while the flag is set invokes the callback and moves the
    mark. *)
Lemma eager_observer_changes_while_suppressed :
  let w := run [SetScrolling true None; Elapse 300] eager in
  let w' := step (Visibility [visible usage]) w in
  createSectionObserver eager_options 0 doc = inr eager
  /\ isScrolling w = true
  /\ hrefs w = [Some "#intro"] /\ calls w = []
  /\ hrefs w' = [Some "#usage"] /\ calls w' = [Some "usage"].
Proof. vm_compute. repeat split. Qed.

Lemma active_changes_only_unsuppressed_witness :
  let es := [SetScrolling true None; Elapse 300] in
  let e := Visibility [visible intro; hidden usage] in
  createSectionObserver docs_options 0 doc = inr docs
  /\ Forall (targets_observed (observed docs)) (es ++ [e])
  /\ page (step e (run es docs)) = page (run es docs)
  /\ Forall (fun id => In id [Some "intro"; Some "usage"; Some "api"])
       (calls (step e (run es docs))).
Proof.
  intros es e.
  assert (Hcreate : createSectionObserver docs_options 0 doc = inr docs)
    by reflexivity.
  assert (Hobs : Forall (targets_observed (observed docs)) (es ++ [e])).
  { repeat (constructor; simpl); tauto. }
  destruct (active_changes_only_unsuppressed docs_options 0 doc docs es e
              Hcreate ltac:(discriminate) Hobs) as [Hquiet Hids].
  split; [exact Hcreate|]. split; [exact Hobs|].
  split; [apply Hquiet; by left | exact Hids].
Defined.

(** C3, counterexample: a window of 1000 ms is armed at time 0 and the
    link to [api] is clicked at time 900.  The click cancels nothing and
    arms nothing: the timer of the first window is still the one pending
    and no handle has been issued; it runs at time 1000, and the batch for
    [intro] that arrives then, 100 ms after the click, moves the mark. *)
Lemma click_keeps_pending_timer :
  let w1 := page_run' [Observer (SetScrolling true None);
                       Observer (Elapse 900); Click 2] docs in
  let w2 := page_run' [Observer (Elapse 100); Observer (Expire 1);
                       Observer (Visibility [visible intro])] w1 in
  now w1 = 900%Z /\ hrefs w1 = [Some "#api"]
  /\ timers w1 = [mkTimer 1 1000] /\ next_handle w1 = 2
  /\ now w2 = 1000%Z /\ isScrolling w2 = false
  /\ hrefs w2 = [Some "#intro"].
Proof. vm_compute. repeat split. Qed.

Lemma one_timer_and_clicks_arm_none_witness :
  let w := page_run' [Observer (SetScrolling true (Some 400%Z)); Click 2;
                      Observer (Elapse 100)] docs in
  let w' := setScrolling true None w in
  createSectionObserver docs_options 0 doc = inr docs
  /\ timers w = [mkTimer 1 400]
  /\ timers w' = [mkTimer 2 1100]
  /\ page_step strict "active" 120 (Observer (Expire 1))
       (page_run' [Click 1; Observer (Elapse 5000)] w')
     = page_run' [Click 1; Observer (Elapse 5000)] w'
  /\ timers (page_step strict "active" 120 (Click 1) w) = timers w.
Proof.
  intros w w'.
  assert (Hcreate : createSectionObserver docs_options 0 doc = inr docs)
    by reflexivity.
  destruct (one_timer_and_clicks_arm_none strict "active" 120 docs_options
              0 doc docs
              [Observer (SetScrolling true (Some 400%Z)); Click 2;
               Observer (Elapse 100)] None Hcreate)
    as (_ & Ht & Hold & Hclick).
  split; [exact Hcreate|]. split; [reflexivity|]. split; [exact Ht|].
  split; [apply Hold; vm_compute; lia|].
  by destruct (Hclick 1) as (_ & ? & _).
Defined.

Lemma suppress_twice_as_once_witness :
  wf docs
  /\ suppression_state
       (setScrolling true (Some 250%Z) (setScrolling true (Some 4000%Z) docs))
     = (true, [250%Z]).
Proof.
  assert (Hwf : wf docs) by reflexivity.
  destruct (suppress_twice_as_once docs (Some 4000%Z) (Some 250%Z) Hwf)
    as (Heq & Honce & _).
  split; [exact Hwf|]. rewrite Heq. exact Honce.
Defined.

(** C5, counterexample: [usage] enters the band, leaves it and enters it
    again; the callback is invoked twice in a row with [usage]. *)
Lemma callback_repeats_active_region :
  calls (run [Visibility [visible usage]; Visibility [hidden usage];
              Visibility [visible usage]] docs)
  = [Some "usage"; Some "usage"].
Proof. reflexivity. Qed.

Lemma callback_invoked_per_qualifying_entry_witness :
  let en := visible MoreSamples.quoted in
  cfg_onSectionChange docs = Some (docs_onSectionChange strict "active")
  /\ cfg_disableDuringScroll docs && isScrolling docs = false
  /\ returned (observer_callback [en] docs) = false
  /\ calls (run [Visibility [en]; Visibility [en]] docs)
     = [el_id MoreSamples.quoted; el_id MoreSamples.quoted]
  /\ (forall id u, returned (docs_onSectionChange lenient "active" id u) = true)
  /\ calls (run (map Visibility [[visible usage]; [hidden usage];
                                 [visible usage]]) eager)
     = [Some "usage"; Some "usage"]
  /\ page (state_of (observer_callback [visible usage; visible api] eager))
     = state_of (invoke_all (docs_onSectionChange lenient "active")
                   [Some "usage"; Some "api"] doc).
Proof.
  intros en.
  destruct (callback_invoked_per_qualifying_entry strict "active" docs
              (docs_onSectionChange strict "active")
              [visible usage] en "usage" doc eq_refl eq_refl)
    as (_ & Htwice & _).
  destruct (callback_invoked_per_qualifying_entry lenient "active" eager
              (docs_onSectionChange lenient "active")
              [visible usage; visible api] en "usage" doc eq_refl eq_refl)
    as ((_ & Hpage & _) & _ & Hall & _).
  assert (Hret : forall id u,
            returned (docs_onSectionChange lenient "active" id u) = true).
  { intros id u. by apply highlight_returns. }
  split; [reflexivity|]. split; [reflexivity|]. split; [reflexivity|].
  split; [exact (Htwice eq_refl)|]. split; [exact Hret|].
  split; [exact (Hall Hret eq_refl _) | exact Hpage].
Defined.



Lemma at_most_one_active_link_witness :
  class_lists_ok doc
  /\ count_marked "active"
       (navLinks (state_of (highlight strict "active" "api" doc))) <= 1
  /\ class_lists_ok MoreSamples.doc2
  /\ token_error "nav active" = Some InvalidCharacterError
  /\ highlight strict "nav active" "api" MoreSamples.doc2
     = Throw InvalidCharacterError MoreSamples.doc2.
Proof.
  assert (Hdoc : class_lists_ok doc) by (repeat constructor).
  assert (Hdoc2 : class_lists_ok MoreSamples.doc2) by (repeat constructor).
  destruct (at_most_one_active_link strict "active" "api" doc Hdoc)
    as (Hcount & _).
  destruct (at_most_one_active_link strict "nav active" "api"
              MoreSamples.doc2 Hdoc2) as (_ & _ & Hthrow & _).
  split; [exact Hdoc|]. split; [exact Hcount|]. split; [exact Hdoc2|].
  split; [reflexivity|].
  apply Hthrow; [reflexivity | discriminate].
Defined.

(** C7, counterexample: no element has the id [missing]; the click on the
    link to it returns normally. *)
Lemma click_on_missing_target_returns :
  getElementById "missing" (elements doc) = None
  /\ click_handler strict "active" 120 3 doc = Normal doc
  /\ returned (click_handler strict "active" 120 3 doc) = true.
Proof. repeat split. Qed.

Lemma click_on_missing_target_is_noop_witness :
  let w := setScrolling true None docs in
  navLinks (page w) !! 3 = Some (mkNavLink (Some "#missing") [])
  /\ getElementById (substring1 "#missing") (elements (page w)) = None
  /\ page_step strict "active" 120 (Click 3) w = w.
Proof.
  intros w.
  destruct (click_on_missing_target_is_noop strict "active" 120 3 w
              (mkNavLink (Some "#missing") []) "#missing"
              eq_refl eq_refl eq_refl) as [_ Hstep].
  split; [reflexivity|]. split; [reflexivity|]. exact Hstep.
Defined.

Lemma setScrolling_false_releases_witness :
  let w := run [SetScrolling true None; Elapse 200] docs in
  let w' := setScrolling false (Some 5000%Z) w in
  wf w /\ timers w = [mkTimer 1 1000]
  /\ isScrolling w' = false /\ timers w' = []
  /\ step (Expire 1) (run [Elapse 800] w') = run [Elapse 800] w'
  /\ observer_callback [visible usage] w'
     = forEach [visible usage] on_entry w'.
Proof.
  intros w w'.
  assert (Hwf : wf w) by (vm_compute; repeat split; lia).
  destruct (setScrolling_false_releases w (Some 5000%Z) Hwf)
    as (Hs & Ht & Hlater & Hwalk).
  split; [exact Hwf|]. split; [reflexivity|].
  split; [exact Hs|]. split; [exact Ht|].
  split; [|apply Hwalk].
  by destruct (Hlater [Elapse 800] 1 eq_refl).
Defined.

(** C10, counterexample: with [disableDuringScroll = false] and a window
    armed, a batch reports two qualifying entries.  The callback throws on
    the first, whose identifier makes a selector the engine rejects, and
    the second, for [usage], gets no invocation. *)
Lemma throwing_callback_ends_batch_while_armed :
  let w := run [SetScrolling true None; Elapse 300] MoreSamples.eager_strict in
  let batch := [visible MoreSamples.quoted; visible usage] in
  let r := observer_callback batch w in
  createSectionObserver MoreSamples.eager_strict_options 0 doc
  = inr MoreSamples.eager_strict
  /\ isScrolling w = true
  /\ qualifying batch = [el_id MoreSamples.quoted; Some "usage"]
  /\ returned r = false
  /\ calls (state_of r) = [el_id MoreSamples.quoted]
  /\ hrefs (state_of r) = [].
Proof. vm_compute. repeat split. Qed.

Lemma flag_ignored_when_not_disabled_witness :
  let es := [SetScrolling true None; Elapse 300] in
  let batch := [visible usage; hidden api; visible api] in
  let w := run es eager in
  let r := observer_callback batch w in
  let wd := mkClosure (Some (docs_onSectionChange lenient "active")) true
              false None [intro; usage; api] 0 1 [] [] doc in
  createSectionObserver eager_options 0 doc = inr eager
  /\ isScrolling w = true
  /\ returned r = true
  /\ calls (state_of r) = [Some "usage"; Some "api"]
  /\ hrefs (state_of r) = [Some "#api"]
  /\ isScrolling (run es wd) = true
  /\ observer_callback batch (run es wd) = Normal (run es wd).
Proof.
  intros es batch w r wd.
  assert (Hcreate : createSectionObserver eager_options 0 doc = inr eager)
    by reflexivity.
  destruct (flag_ignored_when_not_disabled [intro; usage; api] None
              (Some (docs_onSectionChange lenient "active")) 0 doc eager
              es batch Hcreate)
    as (_ & Hwalk & _ & Hdefault).
  destruct (Hwalk _ eq_refl) as (Hp & _ & _ & Hcalls).
  split; [exact Hcreate|]. split; [reflexivity|]. split; [reflexivity|].
  split; [exact (Hcalls eq_refl)|].
  split; [unfold hrefs; fold w r in Hp; rewrite Hp; reflexivity|].
  split; [reflexivity|].
  exact (Hdefault wd eq_refl eq_refl).
Defined.

End SamplePage.

(** ** More on the observer closure *)

Section ObserverFacts.

Context {U : Type}.
Implicit Types (w : Closure U) (es : list event).

Lemma step_now e w :
  now (step e w)
  = (now w + match e with Elapse dt => Z.of_N dt | _ => 0 end)%Z.
Proof.
  destruct e as [entries|state d|h|dt]; simpl.
  - destruct (observer_callback_frame entries w) as (_ & _ & _ & _ & -> & _). lia.
  - unfold setScrolling, setTimeout.
    destruct w as [f dd s st obs t n ts cs u]; simpl.
    destruct st, state; simpl; lia.
  - unfold expire. destruct (due h w); simpl; lia.
  - reflexivity.
Qed.

(** The clock after a sequence of events. *)
Lemma run_now es : forall w, now (run es w) = (now w + elapsed es)%Z.
Proof.
  induction es as [|e es IH]; intros w; simpl; [lia|].
  rewrite IH, step_now. destruct e; lia.
Qed.

(** With no [setScrolling] in between, an armed window either is still
    armed, with the same timer, or has been released. *)
Lemma window_run es : forall w h t,
  isScrolling w = true -> timers w = [mkTimer h t] ->
  no_setScrolling es = true ->
  (isScrolling (run es w) = true /\ timers (run es w) = [mkTimer h t])
  \/ (isScrolling (run es w) = false /\ timers (run es w) = []).
Proof.
  induction es as [|e es IH]; intros w h t Hs Ht Hno; simpl; [tauto|].
  simpl in Hno. apply andb_true_iff in Hno as [He Hno].
  destruct e as [entries|state d|h'|dt]; simpl in *; try discriminate.
  - destruct (observer_callback_frame entries w) as (Hs' & Ht' & _).
    apply IH; [congruence | congruence | exact Hno].
  - unfold expire. destruct (due h' w) eqn:Hdue.
    + right. apply due_spec in Hdue as (tm & Hin & Hh & _).
      rewrite Ht in Hin. destruct Hin as [<-|[]]. simpl in Hh. subst h'.
      apply released_run; [reflexivity | | exact Hno].
      simpl. rewrite Ht. simpl. by rewrite Nat.eqb_refl.
    + by apply IH.
  - by apply IH.
Qed.

(** The window closes: once the delay has passed, the run of the release
    timer leaves the flag clear and the timer table empty, and the observer
    walks the next batch again. *)
Theorem suppression_released_after_delay w d es :
  wf w ->
  no_setScrolling es = true ->
  (delay_of d <= elapsed es)%Z ->
  let w1 := setScrolling true d w in
  let w3 := step (Expire (next_handle w)) (run es w1) in
  isScrolling w3 = false
  /\ timers w3 = []
  /\ forall entries, observer_callback entries w3 = forEach entries on_entry w3.
Proof.
  intros Hwf Hno Hle w1 w3.
  destruct (setScrolling_true w d Hwf) as (Hs & Ht & _ & _ & Hnow & _).
  fold w1 in Hs, Ht, Hnow.
  assert (Hrel : isScrolling w3 = false /\ timers w3 = []).
  { pose proof (run_now es w1) as Hnow2. rewrite Hnow in Hnow2.
    pose proof (window_run es w1 _ _ Hs Ht Hno) as Hdich.
    unfold w3. cbn [step]. remember (run es w1) as w2 eqn:Ew2. clear Ew2.
    destruct Hdich as [[Hs2 Ht2]|[Hs2 Ht2]].
    - unfold expire, due. rewrite Ht2, Hnow2.
      cbn [existsb t_handle t_due]. rewrite Nat.eqb_refl.
      destruct (Z.leb_spec (now w + delay_of d) (now w + elapsed es)); [|lia].
      cbn [andb orb]. unfold cancel. simpl. by rewrite Nat.eqb_refl.
    - rewrite expire_absent; [done|]. rewrite Ht2. constructor. }
  destruct Hrel as [Hs3 Ht3]. split; [exact Hs3|]. split; [exact Ht3|].
  intros entries. unfold observer_callback. by rewrite Hs3, andb_false_r.
Qed.

(** The flag is set exactly while a release timer is pending, and that
    timer is the one [scrollTimeout] names: a set flag never outlives its
    timer. *)
Theorem flag_set_iff_timer_pending options t u w0 es :
  createSectionObserver options t u = inr w0 ->
  let w := run es w0 in
  (isScrolling w = true
   <-> exists tm, timers w = [tm] /\ scrollTimeout w = Some (t_handle tm))
  /\ (isScrolling w = false <-> timers w = []).
Proof.
  intros Hcreate w.
  assert (Hwf : wf w) by (apply wf_run; eapply wf_created; exact Hcreate).
  unfold wf in Hwf. destruct (timers w) as [|tm [|tm' ts]]; [| |done].
  - split; split; try done.
    + rewrite Hwf. discriminate.
    + intros (tm & Habs & _). discriminate.
  - destruct Hwf as (Hs & Hh & _). split; split; try done.
    + intros _. by exists tm.
    + rewrite Hs. discriminate.
Qed.

(** Entries that do not intersect play no part: a batch acts as the batch
    of its intersecting entries does. *)
Theorem only_intersecting_entries_matter w entries :
  observer_callback entries w
  = observer_callback (List.filter isIntersecting entries) w.
Proof.
  unfold observer_callback.
  destruct (cfg_disableDuringScroll w && isScrolling w); [reflexivity|].
  revert w. induction entries as [|en entries IH]; intros w; simpl; [done|].
  destruct (isIntersecting en) eqn:Hen; simpl.
  - destruct (on_entry en w) as [w1|e w1]; simpl; [apply IH | done].
  - unfold on_entry at 1. rewrite Hen. simpl. apply IH.
Qed.

(** Without an [onSectionChange] callback every batch is dropped whole. *)
Theorem no_callback_no_effect w es :
  cfg_onSectionChange w = None ->
  (forall entries, observer_callback entries w = Normal w)
  /\ page (run es w) = page w /\ calls (run es w) = calls w.
Proof.
  intros Hnone.
  assert (Hwalk : forall entries w, cfg_onSectionChange w = None ->
                                    forEach entries on_entry w = Normal w).
  { induction entries as [|en entries IH]; intros w' Hn; simpl; [done|].
    unfold on_entry at 1. rewrite Hn.
    destruct (isIntersecting en); simpl; by apply IH. }
  assert (Hcb : forall entries w, cfg_onSectionChange w = None ->
                                  observer_callback entries w = Normal w).
  { intros entries w' Hn. unfold observer_callback.
    destruct (_ && _); [done | by apply Hwalk]. }
  split; [intros entries; by apply Hcb|].
  revert w Hnone. induction es as [|e es IH]; intros w Hnone; simpl; [done|].
  destruct (step_config e w) as (_ & _ & Hc).
  destruct (IH (step e w)) as [-> ->]; [congruence|].
  destruct e as [entries|state d|h|dt]; simpl.
  - by rewrite Hcb.
  - destruct (setScrolling_frame state d w) as (? & ? & _). tauto.
  - destruct (expire_frame h w) as (? & ? & _). tauto.
  - tauto.
Qed.

(** A callback that throws on a qualifying entry ends the batch there: the
    entries after it, qualifying or not, do not reach the callback. *)
Theorem throw_skips_rest_of_batch w (f : Callback U) en rest e u :
  cfg_onSectionChange w = Some f ->
  cfg_disableDuringScroll w && isScrolling w = false ->
  isIntersecting en = true ->
  f (el_id (target en)) (page w) = Throw e u ->
  observer_callback (en :: rest) w
  = Throw e (set_page (calls w ++ [el_id (target en)]) u w)
  /\ calls (step (Visibility (en :: rest)) w) = calls w ++ [el_id (target en)]
  /\ page (step (Visibility (en :: rest)) w) = u.
Proof.
  intros Hf Hguard Hen Hthrow.
  assert (Hcb : observer_callback (en :: rest) w
                = Throw e (set_page (calls w ++ [el_id (target en)]) u w)).
  { unfold observer_callback. rewrite Hguard. simpl.
    unfold on_entry. by rewrite Hen, Hf, Hthrow. }
  split; [exact Hcb|]. simpl. by rewrite Hcb.
Qed.

End ObserverFacts.

(** ** More on the docs helpers *)

Section DocsFacts.

Variable escaped_query : string -> list (option string) -> query_result.
Variable activeClass : string.
Variable stickyOffset : float.

Local Abbreviation lit := (highlight escaped_query activeClass).
Local Abbreviation query := (querySelector_href escaped_query).
Local Abbreviation unmark := (remove_class activeClass).
Local Abbreviation mark := (add_class activeClass).
Local Abbreviation hrefs_of := (active_hrefs activeClass).








(** [highlight] changes nothing but the active class: with that class taken
    off, the links are as before; the elements, the scroll offset and the
    scroll commands are as before. *)
Theorem highlight_touches_active_class_only sectionId pg :
  let pg' := state_of (highlight escaped_query activeClass sectionId pg) in
  map (remove_class activeClass) (navLinks pg')
  = map (remove_class activeClass) (navLinks pg)
  /\ length (navLinks pg') = length (navLinks pg)
  /\ elements pg' = elements pg
  /\ pageYOffset pg' = pageYOffset pg
  /\ scrolls pg' = scrolls pg.
Proof.
  intros pg'. unfold pg'. rewrite highlight_links. simpl.
  split; [apply unmark_relinked|]. split; [|done].
  pose proof (f_equal (@length NavLink)
                (unmark_relinked escaped_query activeClass sectionId
                   (navLinks pg))) as H.
  by rewrite !length_map in H.
Qed.

(** The last change wins: whatever was highlighted before leaves no trace
    in the outcome of the next [highlight]. *)
Theorem highlight_last_wins a b pg :
  highlight escaped_query activeClass b
    (state_of (highlight escaped_query activeClass a pg))
  = highlight escaped_query activeClass b pg.
Proof.
  destruct (token_cases activeClass (navLinks pg)) as [(e & He & Hne)|Hv].
  - by rewrite (highlight_invalid escaped_query activeClass a pg e He Hne).
  - rewrite highlight_links.
    assert (Hv' : token_error activeClass = None
                  \/ navLinks (set_navLinks
                                 (relinked escaped_query activeClass a
                                    (navLinks pg)) pg) = []).
    { destruct Hv as [Hv|Hnil]; [by left|right]. simpl.
      by apply relinked_nil. }
    rewrite (highlight_valid _ _ _ _ Hv'), (highlight_valid _ _ _ _ Hv).
    simpl. rewrite unmark_relinked.
    by destruct (querySelector_href _ _ _).
Qed.

End DocsFacts.

Section NavigationFacts.

Variable escaped_query : string -> list (option string) -> query_result.
Variable activeClass : string.
Variable stickyOffset : float.
Variable querySelector : string -> list Element -> exn + option Element.
Variable custom_sections : string -> list Element -> exn + list Element.
Variable sidebar_selector_accepted : string -> bool.

Local Abbreviation click := (click_handler escaped_query activeClass stickyOffset).
Local Abbreviation hrefs_of := (active_hrefs activeClass).




(** A link whose [href] is a bare [#], or empty, never navigates: the click
    is a no-op on every page. *)
Theorem click_on_bare_hash_is_noop i pg link :
  navLinks pg !! i = Some link ->
  href link = Some "#" \/ href link = Some "" ->
  click_handler escaped_query activeClass stickyOffset i pg = Normal pg.
Proof.
  intros Hi Hh. unfold click_handler. rewrite Hi.
  destruct Hh as [-> | ->]; reflexivity.
Qed.


(** The click handler is [setActiveLink] followed by what [scrollTo] does
    for the target element, the sticky offset and smooth scrolling. *)
Theorem click_scrolls_as_scrollTo i pg link h tgt :
  navLinks pg !! i = Some link ->
  href link = Some h ->
  getElementById (substring1 h) (elements pg) = Some tgt ->
  click_handler escaped_query activeClass stickyOffset i pg
  = (setActiveLink escaped_query activeClass (substring1 h) pg
     >>= scrollTo querySelector (ByElement (Some tgt)) (Some stickyOffset) None).
Proof.
  intros Hi Hh Htgt. unfold click_handler. by rewrite Hi, Hh, Htgt.
Qed.

Lemma created_watches secs off (cb : option (Callback Page)) dd t pg w :
  createSectionObserver (mkOptions (Some secs) off cb dd) t pg = inr w ->
  cfg_disableDuringScroll w = default true dd
  /\ isScrolling w = false /\ timers w = [] /\ page w = pg
  /\ (forall s, In s (observed w) -> In s secs)
  /\ (forall s, In s secs ->
                exists s', In s' (observed w) /\ el_node s' = el_node s).
Proof.
  unfold createSectionObserver. simpl.
  destruct (rootMargin_parses _); [|discriminate].
  intros [= <-]. simpl.
  split; [done|]. split; [done|]. split; [done|]. split; [done|]. split.
  - intros s Hin. by apply observe_all_incl in Hin as [[]|Hin].
  - intros s. apply observe_all_has.
Qed.

(** [initDocsObserver] with the default options never fails, not even on
    a page without sections: it watches the [section] elements that carry
    an [id] attribute and nothing else, with the guard against events
    during a scroll on, the flag clear and no timer pending.  With other
    options it throws what the section selector throws, a SyntaxError
    when the sidebar selector is rejected or the offset gives a root
    margin that does not parse, and else watches the elements the section
    selector matches. *)
Theorem initDocsObserver_watches_sections options t pg :
  let init :=
    initDocsObserver escaped_query activeClass custom_sections
      sidebar_selector_accepted in
  (exists w,
     init (mkDocsOptions None None None) t pg = inr w
     /\ cfg_disableDuringScroll w = true
     /\ isScrolling w = false /\ timers w = [] /\ page w = pg
     /\ (forall s, In s (observed w) ->
                   In s (elements pg) /\ el_tag s = "section"
                   /\ el_id s <> None)
     /\ (forall s, In s (elements pg) -> el_tag s = "section" ->
                   el_id s <> None ->
                   exists s', In s' (observed w) /\ el_node s' = el_node s))
  /\ (forall e,
        select_sections custom_sections (sectionSelector options) (elements pg)
        = inl e ->
        init options t pg = inl e)
  /\ (forall secs,
        select_sections custom_sections (sectionSelector options) (elements pg)
        = inr secs ->
        (sidebar_accepted sidebar_selector_accepted (sidebarSelector options)
         && rootMargin_parses (default 120%float (docs_offset options))
         = false ->
         init options t pg = inl SyntaxError)
        /\ (sidebar_accepted sidebar_selector_accepted (sidebarSelector options)
            && rootMargin_parses (default 120%float (docs_offset options))
            = true ->
            exists w,
              init options t pg = inr w
              /\ cfg_disableDuringScroll w = true
              /\ isScrolling w = false /\ timers w = [] /\ page w = pg
              /\ (forall s, In s (observed w) -> In s secs)
              /\ (forall s, In s secs ->
                            exists s', In s' (observed w)
                                       /\ el_node s' = el_node s))).
Proof.
  intros init. split; [|split].
  - eexists. split; [reflexivity|]. simpl.
    split; [done|]. split; [done|]. split; [done|]. split; [done|]. split.
    + intros s Hin. apply observe_all_incl in Hin as [[]|Hin].
      unfold querySelectorAll_sections in Hin.
      apply filter_In in Hin as [Hin Hsec].
      apply andb_true_iff in Hsec as [Htag Hid].
      split; [done|]. split; [by apply String.eqb_eq|].
      by destruct (el_id s).
    + intros s Hin Htag Hid. apply observe_all_has.
      unfold querySelectorAll_sections. apply filter_In. split; [done|].
      apply andb_true_iff. split; [by apply String.eqb_eq|].
      by destruct (el_id s).
  - intros e He. unfold init, initDocsObserver. by rewrite He.
  - intros secs Hsecs. unfold init, initDocsObserver. rewrite Hsecs.
    destruct (sidebar_accepted _ _); simpl.
    + split.
      * intros Hm. unfold createSectionObserver. simpl. by rewrite Hm.
      * intros Hm.
        assert (Hc : exists w,
                  createSectionObserver
                    (mkOptions (Some secs)
                       (Some (default 120%float (docs_offset options)))
                       (Some (docs_onSectionChange escaped_query activeClass))
                       None) t pg = inr w).
        { unfold createSectionObserver. simpl. rewrite Hm. by eexists. }
        destruct Hc as (w & Hw). exists w. split; [exact Hw|].
        by apply created_watches in Hw.
    + split; [done|discriminate].
Qed.

End NavigationFacts.

(** ** The helpers on the sample pages *)

Section MoreSamplePages.

Import Sample MoreSamples.

Example scrollTo_by_selector :
  scrollTo id_engine (BySelector "#usage") None (Some false) doc2
  = Normal (mkPage links2 [intro; usage; api] 640 [1540%float]).
Proof. reflexivity. Qed.

Example scrollTo_unknown_selector :
  scrollTo id_engine (BySelector "#nowhere") (Some 80%float) None doc2
  = Normal doc2.
Proof. reflexivity. Qed.

Lemma suppression_released_after_delay_witness :
  let es := [Elapse 400; Visibility [visible usage]; Elapse 700] in
  let w3 := step (Expire 1) (run es (setScrolling true None docs)) in
  wf docs /\ (delay_of None <= elapsed es)%Z
  /\ isScrolling w3 = false /\ timers w3 = [].
Proof.
  intros es w3.
  assert (Hwf : wf docs) by reflexivity.
  assert (Hle : (delay_of None <= elapsed es)%Z) by (vm_compute; discriminate).
  destruct (suppression_released_after_delay docs None es Hwf eq_refl Hle)
    as (Hs & Ht & _).
  split; [exact Hwf|]. split; [exact Hle|]. split; [exact Hs | exact Ht].
Defined.

Lemma flag_set_iff_timer_pending_witness :
  let w := run [SetScrolling true (Some 300%Z); Elapse 100] docs in
  createSectionObserver docs_options 0 doc = inr docs
  /\ (isScrolling w = true
      <-> exists tm, timers w = [tm] /\ scrollTimeout w = Some (t_handle tm)).
Proof.
  intros w.
  assert (Hcreate : createSectionObserver docs_options 0 doc = inr docs)
    by reflexivity.
  destruct (flag_set_iff_timer_pending docs_options 0 doc docs
              [SetScrolling true (Some 300%Z); Elapse 100] Hcreate) as [Hset _].
  split; [exact Hcreate | exact Hset].
Defined.

Lemma no_callback_no_effect_witness :
  cfg_onSectionChange bare = None
  /\ observer_callback [visible usage; visible api] bare = Normal bare
  /\ page (run [Visibility [visible usage]; Elapse 10] bare) = doc.
Proof.
  destruct (no_callback_no_effect bare [Visibility [visible usage]; Elapse 10]
              eq_refl) as (Hcb & Hpage & _).
  split; [reflexivity|]. split; [apply Hcb | exact Hpage].
Defined.

Lemma throw_skips_rest_of_batch_witness :
  isIntersecting (visible quoted) = true
  /\ calls (step (Visibility [visible quoted; visible usage]) docs)
     = [Some (String (ascii_of_nat 34) "faq")]
  /\ hrefs (step (Visibility [visible quoted; visible usage]) docs) = [].
Proof.
  destruct (throw_skips_rest_of_batch docs (docs_onSectionChange strict "active")
              (visible quoted) [visible usage] SyntaxError
              (set_navLinks (map (remove_class "active") links) doc)
              eq_refl eq_refl eq_refl eq_refl) as (_ & Hcalls & Hpage).
  split; [reflexivity|]. split; [exact Hcalls|].
  unfold hrefs. by rewrite Hpage.
Defined.




Lemma click_on_bare_hash_is_noop_witness :
  navLinks doc2 !! 0 = Some (mkNavLink (Some "#") ["top"])
  /\ click_handler strict "active" 120 0 doc2 = Normal doc2.
Proof.
  split; [reflexivity|].
  apply (click_on_bare_hash_is_noop strict "active" 120 0 doc2
           (mkNavLink (Some "#") ["top"]) eq_refl).
  by left.
Defined.

Lemma click_scrolls_as_scrollTo_witness :
  getElementById (substring1 "#intro") (elements doc2) = Some intro
  /\ click_handler strict "active" 120 1 doc2
     = (setActiveLink strict "active" "intro" doc2
        >>= scrollTo id_engine (ByElement (Some intro)) (Some 120%float) None).
Proof.
  split; [reflexivity|].
  apply (click_scrolls_as_scrollTo strict "active" 120 id_engine 1 doc2
           (mkNavLink (Some "#intro") ["nav-link"; "active"]) "#intro" intro
           eq_refl eq_refl eq_refl).
Defined.


Lemma initDocsObserver_watches_sections_witness :
  let options := mkDocsOptions None None (Some nan) in
  let wide := mkDocsOptions None None (Some 12.5%float) in
  select_sections no_sections (sectionSelector options) (elements doc2)
  = inr [intro; usage; api]
  /\ initDocsObserver strict "active" no_sections no_sidebar options 0 doc2
     = inl SyntaxError
  /\ initDocsObserver strict "active" no_sections no_sidebar
       (mkDocsOptions (Some "section[") None None) 0 doc2
     = inl SyntaxError
  /\ exists w,
       initDocsObserver strict "active" no_sections no_sidebar wide 0 doc2
       = inr w
       /\ forall s, In s (observed w) -> In s [intro; usage; api].
Proof.
  intros options wide.
  destruct (initDocsObserver_watches_sections strict "active" no_sections
              no_sidebar options 0 doc2) as (_ & _ & Hsecs).
  destruct (Hsecs [intro; usage; api] eq_refl) as (Hbad & _).
  destruct (initDocsObserver_watches_sections strict "active" no_sections
              no_sidebar (mkDocsOptions (Some "section[") None None) 0 doc2)
    as (_ & Hthrow & _).
  destruct (initDocsObserver_watches_sections strict "active" no_sections
              no_sidebar wide 0 doc2) as (_ & _ & Hwide).
  destruct (Hwide [intro; usage; api] eq_refl) as (_ & Hgood).
  destruct (Hgood eq_refl) as (w & Hw & _ & _ & _ & _ & Hin & _).
  split; [reflexivity|]. split; [exact (Hbad eq_refl)|].
  split; [exact (Hthrow SyntaxError eq_refl)|].
  exists w. split; [exact Hw | exact Hin].
Defined.

End MoreSamplePages.

(** ** Modal management *)

Section ModalFacts.

Import Modal.
Implicit Types (s : State) (els : list ModalElement).

Lemma mem_In x l : mem x l = true <-> In x l.
Proof.
  unfold mem. rewrite existsb_exists. split.
  - intros (y & Hin & Heq). apply String.eqb_eq in Heq. by subst.
  - intros Hin. exists x. split; [done | apply String.eqb_refl].
Qed.

Lemma mem_false x l : mem x l = false <-> ~ In x l.
Proof.
  rewrite <- mem_In. destruct (mem x l); intuition congruence.
Qed.

Lemma In_set_add x y l : In y (set_add x l) <-> y = x \/ In y l.
Proof.
  unfold set_add. destruct (mem x l) eqn:Hm.
  - apply mem_In in Hm. split; [tauto|]. intros [->|]; done.
  - rewrite in_app_iff. simpl. split; intros H; intuition.
Qed.

Lemma NoDup_set_add x l : NoDup l -> NoDup (set_add x l).
Proof.
  intros Hnd. unfold set_add. destruct (mem x l) eqn:Hm; [done|].
  apply mem_false in Hm. apply NoDup_app. split; [done|].
  split; [|apply NoDup_singleton].
  intros y Hy Hy'. apply list_elem_of_In in Hy, Hy'.
  destruct Hy' as [<-|[]]. done.
Qed.

Lemma In_set_delete x y l : In y (set_delete x l) <-> In y l /\ y <> x.
Proof.
  unfold set_delete. rewrite filter_In. split.
  - intros [Hin Hne]. split; [done|]. intros ->.
    by rewrite String.eqb_refl in Hne.
  - intros [Hin Hne]. split; [done|].
    destruct (String.eqb_spec x y); [by subst | done].
Qed.

Lemma NoDup_set_delete x l : NoDup l -> NoDup (set_delete x l).
Proof.
  intros Hnd. unfold set_delete. apply NoDup_ListNoDup.
  apply List.NoDup_filter. by apply NoDup_ListNoDup.
Qed.

Lemma set_delete_absent x l : ~ In x l -> set_delete x l = l.
Proof.
  intros Hx. unfold set_delete. induction l as [|y l IH]; simpl; [done|].
  destruct (String.eqb_spec x y) as [->|Hne]; simpl.
  - destruct Hx. by left.
  - f_equal. apply IH. intros Hin. apply Hx. by right.
Qed.

(** *** Looking up elements *)

Lemma index_of_lookup modalId els : forall i,
  index_of modalId els = Some i ->
  exists e, els !! i = Some e /\ m_id e = modalId.
Proof.
  induction els as [|x els IH]; intros i; simpl; [done|].
  destruct (String.eqb_spec (m_id x) modalId) as [Heq|Hne].
  - intros [= <-]. by exists x.
  - destruct (index_of modalId els) as [j|]; simpl; [|done].
    intros [= <-]. simpl. by apply IH.
Qed.

Lemma index_of_alter (f : ModalElement -> ModalElement) modalId els :
  (forall e, m_id (f e) = m_id e) ->
  forall j, index_of modalId (alter f j els) = index_of modalId els.
Proof.
  intros Hf. induction els as [|x els IH]; intros [|j]; simpl; try done.
  - by rewrite Hf.
  - change (list_alter f j els) with (alter f j els). by rewrite IH.
Qed.

Lemma getElementById_alter (f : ModalElement -> ModalElement) modalId els j :
  (forall e, m_id (f e) = m_id e) ->
  getElementById modalId (alter f j els) = getElementById modalId els.
Proof.
  intros Hf. unfold getElementById. by rewrite index_of_alter.
Qed.

Lemma getElementById_lookup modalId els i :
  getElementById modalId els = Some i ->
  exists e, els !! i = Some e /\ m_id e = modalId.
Proof.
  unfold getElementById. destruct (String.eqb modalId ""); [done|].
  apply index_of_lookup.
Qed.

(** The display of the element [getElementById] finds, on a list. *)
Lemma display_set_same v modalId els i :
  getElementById modalId els = Some i ->
  match getElementById modalId (alter (set_display v) i els) with
  | Some j => option_map display (alter (set_display v) i els !! j)
  | None => None
  end = Some v.
Proof.
  intros Hi. rewrite getElementById_alter by done. rewrite Hi.
  destruct (getElementById_lookup _ _ _ Hi) as (e & He & _).
  by rewrite list_lookup_alter_eq, He.
Qed.

Lemma display_set_other v modalId other els i :
  getElementById modalId els = Some i ->
  other <> modalId ->
  match getElementById other (alter (set_display v) i els) with
  | Some j => option_map display (alter (set_display v) i els !! j)
  | None => None
  end
  = match getElementById other els with
    | Some j => option_map display (els !! j)
    | None => None
    end.
Proof.
  intros Hi Hne. rewrite getElementById_alter by done.
  destruct (getElementById other els) as [j|] eqn:Hj; [|done].
  destruct (getElementById_lookup _ _ _ Hi) as (e & He & Hid).
  destruct (getElementById_lookup _ _ _ Hj) as (e' & He' & Hid').
  rewrite list_lookup_alter_ne; [done|].
  intros ->. rewrite He in He'. injection He' as ->. congruence.
Qed.

Lemma display_listeners modalId els i :
  match getElementById modalId (alter add_click_listeners i els) with
  | Some j => option_map display (alter add_click_listeners i els !! j)
  | None => None
  end
  = match getElementById modalId els with
    | Some j => option_map display (els !! j)
    | None => None
    end.
Proof.
  rewrite getElementById_alter by done.
  destruct (getElementById modalId els) as [j|]; [|done].
  destruct (decide (i = j)) as [->|Hne].
  - rewrite list_lookup_alter_eq. by destruct (els !! j).
  - by rewrite list_lookup_alter_ne.
Qed.

(** *** The methods, one by one *)

Lemma display_of_eq modalId s :
  display_of modalId s
  = match getElementById modalId (document s) with
    | Some j => option_map display (document s !! j)
    | None => None
    end.
Proof. reflexivity. Qed.

Lemma setup_spec modalId options s :
  let s' := setupEventListeners modalId options s in
  openModals s' = openModals s /\ overflow s' = overflow s
  /\ (forall x, display_of x s' = display_of x s)
  /\ (forall x, getElementById x (document s') = getElementById x (document s))
  /\ ((keydown s' = keydown s /\ eventListeners s' = eventListeners s)
      \/ (keydown s' = keydown s ++ [modalId]
          /\ ((modalId = "__proto__" /\ eventListeners s' = eventListeners s)
              \/ (modalId <> "__proto__"
                  /\ eventListeners s' = set_add modalId (eventListeners s))))).
Proof.
  unfold setupEventListeners.
  destruct (getElementById modalId (document s)) as [i|]; [|simpl; tauto].
  destruct (default true (closeOnEscape options));
    [destruct (String.eqb_spec modalId "__proto__")|];
    destruct (default true (closeOnBackdrop options) && _); simpl;
    repeat split; auto; intros;
    rewrite ?display_of_eq; simpl;
    rewrite ?display_listeners, ?getElementById_alter by done; auto.
Qed.

Lemma close_found modalId options s i :
  getElementById modalId (document s) = Some i ->
  let s' := close modalId options s in
  openModals s' = set_delete modalId (openModals s)
  /\ overflow s'
     = (if Nat.eqb (length (set_delete modalId (openModals s))) 0
        then "auto" else overflow s)
  /\ display_of modalId s' = Some "none"
  /\ (forall x, x <> modalId -> display_of x s' = display_of x s)
  /\ (forall x, getElementById x (document s') = getElementById x (document s))
  /\ keydown s' = keydown s /\ eventListeners s' = eventListeners s.
Proof.
  intros Hi. unfold close. rewrite Hi.
  assert (Hsame : match getElementById modalId
                          (alter (set_display "none") i (document s)) with
                  | Some j => option_map display
                                (alter (set_display "none") i (document s) !! j)
                  | None => None
                  end = Some "none") by (by apply display_set_same).
  destruct (onClose options); simpl;
    (split; [reflexivity|]); (split; [reflexivity|]);
    (split; [exact Hsame|]);
    (split; [intros x Hx; rewrite !display_of_eq; simpl;
             by apply display_set_other with (modalId := modalId)|]);
    (split; [intros x; by apply getElementById_alter|]);
    split; reflexivity.
Qed.

Lemma close_missing modalId options s :
  getElementById modalId (document s) = None -> close modalId options s = s.
Proof. intros Hnone. unfold close. by rewrite Hnone. Qed.

Lemma length_zero {A} (l : list A) : Nat.eqb (length l) 0 = true <-> l = [].
Proof. destruct l; simpl; split; done. Qed.

Lemma consistent_close modalId options s :
  consistent s -> consistent (close modalId options s).
Proof.
  intros (Hnd & Hdisp & Hov & Hkd & Hkl).
  destruct (getElementById modalId (document s)) as [i|] eqn:Hi;
    [|by rewrite close_missing].
  destruct (close_found modalId options s i Hi)
    as (Ho & Hv & _ & Hother & _ & Hk & He).
  unfold consistent. rewrite Ho, Hv, Hk, He.
  split; [by apply NoDup_set_delete|]. split; [|split; [|done]].
  - intros x Hx. apply In_set_delete in Hx as [Hx Hne].
    rewrite Hother by done. by apply Hdisp.
  - intros Hrem.
    destruct (Nat.eqb _ 0) eqn:Hlen; [by apply length_zero in Hlen|].
    apply Hov. intros Hnil. rewrite Hnil in Hrem. done.
Qed.

Lemma consistent_open modalId options s :
  consistent s -> consistent (open modalId options s).
Proof.
  intros (Hnd & Hdisp & Hov & Hkd & Hkl). unfold open.
  destruct (getElementById modalId (document s)) as [i|] eqn:Hi; [|done].
  set (s1 := mkState (set_add modalId (openModals s)) (eventListeners s)
               (proto_swapped s) (alter (set_display "flex") i (document s))
               "hidden" (keydown s) (warnings s) (callbacks s)).
  assert (H1 : consistent s1).
  { unfold consistent, s1. simpl.
    split; [by apply NoDup_set_add|]. split; [|done].
    intros x Hx. rewrite display_of_eq. simpl.
    destruct (String.eqb_spec x modalId) as [->|Hne].
    - by apply display_set_same.
    - rewrite display_set_other with (modalId := modalId) by done.
      apply In_set_add in Hx as [Hx|Hx]; [done|]. by apply Hdisp. }
  assert (H2 : consistent (if negb (has_listeners modalId s1)
                           then setupEventListeners modalId options s1
                           else s1)).
  { destruct (has_listeners modalId s1) eqn:Hhas; [exact H1|]. simpl.
    destruct H1 as (Hnd1 & Hdisp1 & Hov1 & Hkd1 & Hkl1).
    unfold has_listeners in Hhas.
    apply orb_false_iff in Hhas as [Hhas _].
    apply orb_false_iff in Hhas as [Hown Hproto].
    destruct (setup_spec modalId options s1)
      as (Ho & Hv & Hd & _ & [[Hk He]|[Hk He]]);
      unfold consistent; rewrite Ho, Hv, Hk.
    - rewrite He. repeat split; auto.
      intros x Hx. rewrite Hd. by apply Hdisp1.
    - assert (Hfresh : ~ In modalId (keydown s1)).
      { intros Hin. apply Hkl1 in Hin. congruence. }
      split; [done|]. split; [intros x Hx; rewrite Hd; by apply Hdisp1|].
      split; [done|]. split.
      + apply NoDup_app. split; [done|]. split; [|apply NoDup_singleton].
        intros y Hy Hy'. apply list_elem_of_In in Hy, Hy'.
        destruct Hy' as [<-|[]]. done.
      + destruct He as [[-> _]|[_ ->]]; [done|].
        intros x Hx. apply mem_In, In_set_add.
        apply in_app_iff in Hx as [Hx|[<-|[]]]; [|by left].
        right. by apply mem_In, Hkl1. }
  destruct (onOpen options); exact H2.
Qed.

Lemma consistent_closes (ids : list string) : forall s,
  consistent s ->
  consistent (fold_left (fun s modalId => close modalId no_options s) ids s).
Proof.
  induction ids as [|x ids IH]; intros s Hs; simpl; [done|].
  apply IH. by apply consistent_close.
Qed.

Lemma consistent_escapes key (ids : list string) : forall s,
  consistent s ->
  consistent (fold_left (fun s modalId => escapeHandler modalId key s) ids s).
Proof.
  induction ids as [|x ids IH]; intros s Hs; simpl; [done|].
  apply IH. unfold escapeHandler.
  destruct (_ && _); [by apply consistent_close | done].
Qed.

Lemma consistent_iter_close modalId n : forall s,
  consistent s -> consistent (Nat.iter n (close modalId no_options) s).
Proof.
  induction n as [|n IH]; intros s Hs; simpl; [done|].
  apply consistent_close. by apply IH.
Qed.

Lemma consistent_step e s : consistent s -> consistent (step e s).
Proof.
  intros Hs. destruct e as [modalId o|modalId o| |key|i]; simpl.
  - by apply consistent_open.
  - by apply consistent_close.
  - by apply consistent_closes.
  - by apply consistent_escapes.
  - unfold on_backdrop_click. destruct (document s !! i); [|done].
    by apply consistent_iter_close.
Qed.

Lemma consistent_run es : forall s, consistent s -> consistent (run es s).
Proof.
  induction es as [|e es IH]; intros s Hs; simpl; [done|].
  apply IH. by apply consistent_step.
Qed.

Lemma consistent_init els body_overflow : consistent (init els body_overflow).
Proof.
  unfold consistent, init. simpl.
  repeat split; try done; apply NoDup_nil_2.
Qed.

Lemma open_found modalId options s i :
  getElementById modalId (document s) = Some i ->
  let s' := open modalId options s in
  openModals s' = set_add modalId (openModals s)
  /\ overflow s' = "hidden"
  /\ display_of modalId s' = Some "flex"
  /\ (forall x, getElementById x (document s') = getElementById x (document s)).
Proof.
  intros Hi. unfold open. rewrite Hi.
  set (s1 := mkState (set_add modalId (openModals s)) (eventListeners s)
               (proto_swapped s) (alter (set_display "flex") i (document s))
               "hidden" (keydown s) (warnings s) (callbacks s)).
  assert (H1 : display_of modalId s1 = Some "flex"
               /\ forall x, getElementById x (document s1)
                            = getElementById x (document s)).
  { split; [by apply display_set_same|].
    intros x. by apply getElementById_alter. }
  destruct H1 as [Hd1 Hids1].
  destruct (setup_spec modalId options s1) as (Ho & Hv & Hd & Hids & _).
  set (s2 := if negb (has_listeners modalId s1)
             then setupEventListeners modalId options s1 else s1).
  assert (H2 : openModals s2 = set_add modalId (openModals s)
               /\ overflow s2 = "hidden"
               /\ display_of modalId s2 = Some "flex"
               /\ (forall x, getElementById x (document s2)
                             = getElementById x (document s))).
  { unfold s2. destruct (negb (has_listeners modalId s1)).
    - rewrite Ho, Hv, Hd. repeat split; auto.
      intros x. by rewrite Hids.
    - repeat split; auto. }
  destruct (onOpen options); exact H2.
Qed.

Lemma found_when_open modalId s :
  consistent s -> In modalId (openModals s) ->
  exists i, getElementById modalId (document s) = Some i.
Proof.
  intros (_ & Hdisp & _) Hin. specialize (Hdisp _ Hin).
  rewrite display_of_eq in Hdisp.
  destruct (getElementById modalId (document s)) as [i|]; [by exists i | done].
Qed.

Lemma filter_set_delete (p : string -> bool) x l :
  List.filter p (set_delete x l)
  = List.filter (fun y => negb (String.eqb x y) && p y) l.
Proof.
  unfold set_delete. induction l as [|y l IH]; simpl; [done|].
  destruct (String.eqb x y); simpl; [done|].
  destruct (p y); by rewrite IH.
Qed.

(** Closing a list of modals that are all on the page. *)
Lemma closes_openModals (ids : list string) : forall s,
  (forall x, In x ids -> getElementById x (document s) <> None) ->
  let s' := fold_left (fun s modalId => close modalId no_options s) ids s in
  openModals s' = List.filter (fun y => negb (mem y ids)) (openModals s)
  /\ (forall x, getElementById x (document s') = getElementById x (document s)).
Proof.
  induction ids as [|x ids IH]; intros s Hfound; simpl.
  - split; [|done]. induction (openModals s) as [|y l IHl]; simpl; [done|].
    by rewrite <- IHl.
  - destruct (getElementById x (document s)) as [i|] eqn:Hi;
      [|by destruct (Hfound x (or_introl eq_refl))].
    destruct (close_found x no_options s i Hi) as (Ho & _ & _ & _ & Hids & _).
    destruct (IH (close x no_options s)) as [Ho' Hids'].
    { intros y Hy. rewrite Hids. apply Hfound. by right. }
    split.
    + rewrite Ho', Ho, filter_set_delete. apply filter_ext. intros y.
      rewrite (String.eqb_sym y x). by rewrite negb_orb.
    + intros y. by rewrite Hids', Hids.
Qed.

Lemma closes_display_other modalId (ids : list string) : forall s,
  ~ In modalId ids ->
  display_of modalId
    (fold_left (fun s x => close x no_options s) ids s)
  = display_of modalId s.
Proof.
  induction ids as [|x ids IH]; intros s Hnot; simpl; [done|].
  rewrite IH by (intros Hin; apply Hnot; by right).
  destruct (getElementById x (document s)) as [i|] eqn:Hi;
    [|by rewrite close_missing].
  destruct (close_found x no_options s i Hi) as (_ & _ & _ & Hother & _).
  apply Hother. intros ->. apply Hnot. by left.
Qed.

Lemma closes_display (ids : list string) : forall s modalId,
  (forall x, In x ids -> getElementById x (document s) <> None) ->
  In modalId ids ->
  display_of modalId
    (fold_left (fun s x => close x no_options s) ids s)
  = Some "none".
Proof.
  induction ids as [|x ids IH]; intros s modalId Hfound Hin; simpl; [done|].
  destruct (getElementById x (document s)) as [i|] eqn:Hi;
    [|by destruct (Hfound x (or_introl eq_refl))].
  destruct (close_found x no_options s i Hi) as (_ & _ & Hnone & _ & Hids & _).
  destruct (in_dec String.string_dec modalId ids) as [Hrest|Hrest].
  - apply IH; [|done]. intros y Hy. rewrite Hids. apply Hfound. by right.
  - destruct Hin as [->|Hin]; [|done].
    by rewrite closes_display_other.
Qed.

Lemma closes_overflow (ids : list string) : forall s,
  ids <> [] ->
  (forall x, In x ids -> getElementById x (document s) <> None) ->
  let s' := fold_left (fun s modalId => close modalId no_options s) ids s in
  openModals s' = [] -> overflow s' = "auto".
Proof.
  induction ids as [|x ids IH] using rev_ind; intros s Hne Hfound; [done|].
  rewrite fold_left_app. simpl.
  set (mid := fold_left (fun s modalId => close modalId no_options s) ids s).
  destruct (closes_openModals ids s) as [_ Hids].
  { intros y Hy. apply Hfound. apply in_app_iff. by left. }
  fold mid in Hids.
  destruct (getElementById x (document mid)) as [i|] eqn:Hi.
  - destruct (close_found x no_options mid i Hi) as (Ho & Hv & _).
    intros Hnil. rewrite Hv. rewrite Ho in Hnil. by rewrite Hnil.
  - rewrite Hids in Hi. destruct (Hfound x); [|done].
    apply in_app_iff. right. by left.
Qed.

Lemma filter_mem_self (l : list string) :
  List.filter (fun y => negb (mem y l)) l = [].
Proof.
  assert (H : forall l0, (forall y, In y l0 -> In y l) ->
                         List.filter (fun y => negb (mem y l)) l0 = []).
  { induction l0 as [|y l0 IH]; intros Hsub; simpl; [done|].
    assert (Hy : mem y l = true) by (apply mem_In, Hsub; by left).
    rewrite Hy. simpl. apply IH. intros z Hz. apply Hsub. by right. }
  by apply H.
Qed.

(** Every state of a run is consistent; every open modal is on the page. *)
Lemma reachable_consistent els body_overflow es :
  consistent (run es (init els body_overflow)).
Proof. apply consistent_run, consistent_init. Qed.

End ModalFacts.

Section ModalProperties.

Import Modal.
Implicit Types (s : State) (els : list ModalElement).

(** While a modal is open the body does not scroll, and every modal in the
    Set is displayed; the Set holds no identifier twice. *)
Theorem open_modals_displayed_and_body_locked els body_overflow es :
  let s := run es (init els body_overflow) in
  NoDup (openModals s)
  /\ (forall modalId, In modalId (openModals s) ->
                     display_of modalId s = Some "flex")
  /\ (openModals s <> [] -> overflow s = "hidden").
Proof.
  intros s.
  destruct (reachable_consistent els body_overflow es) as (H1 & H2 & H3 & _).
  auto.
Qed.

(** However often a modal is opened, and with whatever options, the
    document carries at most one Escape handler for it, and every handler
    is recorded in [eventListeners]. *)
Theorem escape_handler_registered_once els body_overflow es :
  let s := run es (init els body_overflow) in
  NoDup (keydown s)
  /\ forall modalId, In modalId (keydown s) ->
                     mem modalId (eventListeners s) = true.
Proof.
  intros s.
  destruct (reachable_consistent els body_overflow es) as (_ & _ & _ & H4 & H5).
  auto.
Qed.

(** [closeAll] leaves no modal open: every modal that was open is hidden
    and the body scrolls again; with no modal open it changes nothing. *)
Theorem closeAll_closes_every_modal els body_overflow es :
  let s := run es (init els body_overflow) in
  let s' := closeAll s in
  openModals s' = []
  /\ (forall modalId, In modalId (openModals s) ->
                     display_of modalId s' = Some "none")
  /\ (openModals s <> [] -> overflow s' = "auto")
  /\ (openModals s = [] -> s' = s).
Proof.
  intros s s'.
  pose proof (reachable_consistent els body_overflow es) as Hc. fold s in Hc.
  assert (Hfound : forall x, In x (openModals s) ->
                             getElementById x (document s) <> None).
  { intros x Hx. destruct (found_when_open x s Hc Hx) as [i ->]. done. }
  destruct (closes_openModals (openModals s) s Hfound) as [Ho _].
  fold (closeAll s) in Ho. fold s' in Ho. rewrite filter_mem_self in Ho.
  split; [exact Ho|]. split; [|split].
  - intros modalId Hin. by apply closes_display.
  - intros Hne. by apply (closes_overflow (openModals s) s Hne Hfound).
  - intros Hnil. unfold s', closeAll. by rewrite Hnil.
Qed.

Lemma escapes_openModals (ids : list string) : forall s,
  consistent s ->
  openModals (fold_left (fun s x => escapeHandler x "Escape" s) ids s)
  = List.filter (fun y => negb (mem y ids)) (openModals s).
Proof.
  induction ids as [|x ids IH]; intros s Hc; simpl.
  - induction (openModals s) as [|y l IHl]; simpl; [done|]. by rewrite <- IHl.
  - assert (Hone : consistent (escapeHandler x "Escape" s)
                   /\ openModals (escapeHandler x "Escape" s)
                      = set_delete x (openModals s)).
    { unfold escapeHandler. simpl.
      destruct (mem x (openModals s)) eqn:Hm.
      - split; [by apply consistent_close|].
        apply mem_In in Hm. destruct (found_when_open x s Hc Hm) as [i Hi].
        by destruct (close_found x no_options s i Hi) as (-> & _).
      - split; [done|]. apply mem_false in Hm. by rewrite set_delete_absent. }
    destruct Hone as [Hc1 Ho1]. rewrite IH by done.
    rewrite Ho1, filter_set_delete. apply filter_ext. intros y.
    rewrite (String.eqb_sym y x). by rewrite negb_orb.
Qed.

Lemma other_keys_ignored key (ids : list string) : forall s,
  key <> "Escape" ->
  fold_left (fun s x => escapeHandler x key s) ids s = s.
Proof.
  induction ids as [|x ids IH]; intros s Hkey; simpl; [done|].
  unfold escapeHandler at 2.
  destruct (String.eqb_spec key "Escape"); [done|]. simpl. by apply IH.
Qed.

(** The Escape key closes every open modal that has an Escape handler, all
    at once, and leaves the others open; any other key changes nothing. *)
Theorem escape_closes_modals_with_handler els body_overflow es key :
  let s := run es (init els body_overflow) in
  (key <> "Escape" -> on_keydown key s = s)
  /\ openModals (on_keydown "Escape" s)
     = List.filter (fun modalId => negb (mem modalId (keydown s)))
         (openModals s).
Proof.
  intros s. split.
  - intros Hkey. by apply other_keys_ignored.
  - apply escapes_openModals. apply reachable_consistent.
Qed.

(** Opening a modal and closing it again, with no other modal open, does
    not give the body its former overflow back: it is [auto] afterwards,
    whatever it was. *)
Theorem open_then_close_sets_overflow_auto s modalId i options options' :
  getElementById modalId (document s) = Some i ->
  openModals s = [] ->
  let s' := close modalId options' (open modalId options s) in
  openModals s' = [] /\ overflow s' = "auto"
  /\ display_of modalId s' = Some "none".
Proof.
  intros Hi Hnil s'.
  destruct (open_found modalId options s i Hi) as (Ho & _ & _ & Hids).
  assert (Hi' : getElementById modalId (document (open modalId options s))
                = Some i) by (by rewrite Hids).
  destruct (close_found modalId options' _ i Hi') as (Hc & Hv & Hd & _).
  fold s' in Hc, Hv, Hd.
  assert (Hempty : set_delete modalId (openModals (open modalId options s)) = []).
  { rewrite Ho, Hnil. unfold set_add, set_delete. simpl.
    by rewrite String.eqb_refl. }
  rewrite Hempty in Hc, Hv. auto.
Qed.

Lemma keydown_close modalId options s :
  keydown (close modalId options s) = keydown s.
Proof.
  destruct (getElementById modalId (document s)) as [i|] eqn:Hi.
  - by destruct (close_found modalId options s i Hi) as (_ & _ & _ & _ & _ & -> & _).
  - by rewrite close_missing.
Qed.

Lemma keydown_open modalId options s x :
  In x (keydown (open modalId options s)) ->
  In x (keydown s) \/ (x = modalId /\ mem modalId object_prototype_keys = false).
Proof.
  unfold open.
  destruct (getElementById modalId (document s)) as [i|]; [|simpl; tauto].
  set (s1 := mkState (set_add modalId (openModals s)) (eventListeners s)
               (proto_swapped s) (alter (set_display "flex") i (document s))
               "hidden" (keydown s) (warnings s) (callbacks s)).
  assert (H2 : In x (keydown (if negb (has_listeners modalId s1)
                              then setupEventListeners modalId options s1
                              else s1)) ->
               In x (keydown s)
               \/ (x = modalId /\ mem modalId object_prototype_keys = false)).
  { destruct (has_listeners modalId s1) eqn:Hhas; simpl; [tauto|].
    unfold has_listeners in Hhas.
    apply orb_false_iff in Hhas as [Hhas _].
    apply orb_false_iff in Hhas as [_ Hproto].
    destruct (setup_spec modalId options s1)
      as (_ & _ & _ & _ & [[-> _]|[-> _]]); [simpl; tauto|].
    rewrite in_app_iff. simpl. intros [Hin|[<-|[]]]; tauto. }
  destruct (onOpen options); exact H2.
Qed.

Lemma keydown_step e s x :
  In x (keydown (step e s)) ->
  In x (keydown s) \/ mem x object_prototype_keys = false.
Proof.
  destruct e as [modalId o|modalId o| |key|i]; simpl.
  - intros Hin. apply keydown_open in Hin as [Hin|[-> Hp]]; tauto.
  - rewrite keydown_close. tauto.
  - unfold closeAll. generalize (openModals s) as ids. intros ids. revert s.
    induction ids as [|y ids IH]; intros s; simpl; [tauto|].
    intros Hin. apply IH in Hin. by rewrite keydown_close in Hin.
  - unfold on_keydown. generalize (keydown s) at 1 as ids. intros ids. revert s.
    induction ids as [|y ids IH]; intros s; simpl; [tauto|].
    intros Hin. apply IH in Hin. unfold escapeHandler in Hin.
    destruct (_ && _); [by rewrite keydown_close in Hin | done].
  - unfold on_backdrop_click. destruct (document s !! i) as [m|]; [|tauto].
    induction (backdrop_listeners m) as [|n IH]; simpl; [tauto|].
    by rewrite keydown_close.
Qed.

(** A modal whose [id] is the name of a property every object inherits
    ([constructor], [toString], ...) never gets an Escape handler, so the
    Escape key does not close it. *)
Theorem prototype_named_modal_ignores_escape modalId els body_overflow es :
  In modalId object_prototype_keys ->
  let s := run es (init els body_overflow) in
  ~ In modalId (keydown s)
  /\ (In modalId (openModals s) ->
      In modalId (openModals (on_keydown "Escape" s))).
Proof.
  intros Hproto s.
  assert (Hnot : ~ In modalId (keydown s)).
  { unfold s. clear s. induction es as [|e es IH] using rev_ind; [simpl; tauto|].
    unfold run. rewrite fold_left_app. simpl. intros Hin.
    apply keydown_step in Hin as [Hin|Hin]; [by apply IH|].
    apply mem_false in Hin. done. }
  split; [exact Hnot|]. intros Hopen.
  unfold on_keydown.
  rewrite (escapes_openModals (keydown s) s)
    by apply reachable_consistent.
  apply filter_In. split; [exact Hopen|].
  apply mem_false in Hnot. by rewrite Hnot.
Qed.

Lemma has_listeners_fields s s' modalId :
  eventListeners s' = eventListeners s -> proto_swapped s' = proto_swapped s ->
  has_listeners modalId s' = has_listeners modalId s.
Proof. intros He Hp. unfold has_listeners. by rewrite He, Hp. Qed.

(** One [open] with [closeOnEscape: false] of a modal with content and
    without an entry in [eventListeners]: one more pair of click listeners,
    and still no entry. *)
Lemma open_without_escape s modalId i e cb1 cb2 :
  getElementById modalId (document s) = Some i ->
  document s !! i = Some e ->
  modal_content e = true ->
  has_listeners modalId s = false ->
  let s' := open modalId (mkOptions (Some false) None cb1 cb2) s in
  getElementById modalId (document s') = Some i
  /\ document s' !! i = Some (add_click_listeners (set_display "flex" e))
  /\ has_listeners modalId s' = false.
Proof.
  intros Hi He Hcontent Hhas. unfold open. rewrite Hi.
  set (s1 := mkState (set_add modalId (openModals s)) (eventListeners s)
               (proto_swapped s) (alter (set_display "flex") i (document s))
               "hidden" (keydown s) (warnings s) (callbacks s)).
  assert (Hhas1 : has_listeners modalId s1 = false) by exact Hhas.
  assert (Hi1 : getElementById modalId (document s1) = Some i)
    by (simpl; by rewrite getElementById_alter).
  assert (He1 : document s1 !! i = Some (set_display "flex" e))
    by (simpl; by rewrite list_lookup_alter_eq, He).
  rewrite Hhas1. simpl negb. cbv iota.
  assert (Hsetup : setupEventListeners modalId
                     (mkOptions (Some false) None cb1 cb2) s1
                   = with_document
                       (alter add_click_listeners i (document s1)) s1).
  { unfold setupEventListeners. rewrite Hi1, He1. simpl.
    by rewrite Hcontent. }
  rewrite Hsetup.
  assert (Hres : getElementById modalId
                   (alter add_click_listeners i (document s1)) = Some i
                 /\ alter add_click_listeners i (document s1) !! i
                    = Some (add_click_listeners (set_display "flex" e))).
  { split; [by rewrite getElementById_alter|].
    by rewrite list_lookup_alter_eq, He1. }
  destruct Hres as [Hr1 Hr2].
  destruct cb1; simpl; repeat split; auto.
Qed.

(** With [closeOnEscape: false] nothing records that the listeners are in
    place: every [open] adds another click listener to the modal and to its
    content. *)
Theorem click_listeners_pile_up_without_escape s modalId i e cb1 cb2 n :
  getElementById modalId (document s) = Some i ->
  document s !! i = Some e ->
  modal_content e = true ->
  has_listeners modalId s = false ->
  exists e',
    document (Nat.iter n (open modalId (mkOptions (Some false) None cb1 cb2)) s)
      !! i = Some e'
    /\ backdrop_listeners e' = backdrop_listeners e + n
    /\ content_listeners e' = content_listeners e + n.
Proof.
  intros Hi He Hcontent Hhas.
  assert (Hall : exists e',
            document (Nat.iter n (open modalId
                                    (mkOptions (Some false) None cb1 cb2)) s)
              !! i = Some e'
            /\ backdrop_listeners e' = backdrop_listeners e + n
            /\ content_listeners e' = content_listeners e + n
            /\ modal_content e' = true
            /\ getElementById modalId
                 (document (Nat.iter n (open modalId
                                          (mkOptions (Some false) None cb1 cb2)) s))
               = Some i
            /\ has_listeners modalId
                 (Nat.iter n (open modalId
                                (mkOptions (Some false) None cb1 cb2)) s)
               = false).
  { induction n as [|n IH]; simpl.
    - exists e. repeat split; auto; lia.
    - destruct IH as (e1 & He1 & Hb & Hc & Hm & Hi1 & Hh1).
      destruct (open_without_escape _ modalId i e1 cb1 cb2 Hi1 He1 Hm Hh1)
        as (Hi2 & He2 & Hh2).
      eexists. split; [exact He2|]. simpl. repeat split; auto; lia. }
  destruct Hall as (e' & H1 & H2 & H3 & _). by exists e'.
Qed.

End ModalProperties.

Section ModalSamples.

Import Modal.

Example escape_closes_both :
  let s := run [Open "login" no_options; Open "help" no_options;
                KeyDown "Escape"] sample in
  openModals s = [] /\ overflow s = "auto"
  /\ display_of "login" s = Some "none" /\ display_of "help" s = Some "none".
Proof. repeat split. Qed.

Example missing_modal_warns :
  let s := open "signup" no_options sample in
  openModals s = [] /\ overflow s = "scroll" /\ length (warnings s) = 1.
Proof. repeat split. Qed.

Lemma open_then_close_sets_overflow_auto_witness :
  overflow sample = "scroll"
  /\ overflow (close "login" no_options (open "login" no_options sample))
     = "auto".
Proof.
  destruct (open_then_close_sets_overflow_auto sample "login" 0
              no_options no_options eq_refl eq_refl) as (_ & Hv & _).
  split; [reflexivity | exact Hv].
Defined.

Lemma prototype_named_modal_ignores_escape_witness :
  let s := run [Open "constructor" no_options; Open "help" no_options]
             sample in
  openModals s = ["constructor"; "help"]
  /\ In "constructor" (openModals (on_keydown "Escape" s)).
Proof.
  intros s.
  destruct (prototype_named_modal_ignores_escape "constructor"
              (document sample) "scroll"
              [Open "constructor" no_options; Open "help" no_options])
    as [_ Hstays].
  { simpl. tauto. }
  split; [reflexivity|]. apply Hstays. simpl. tauto.
Defined.

Lemma click_listeners_pile_up_without_escape_witness :
  exists e',
    document (Nat.iter 3 (open "login" (mkOptions (Some false) None false false))
                sample) !! 0 = Some e'
    /\ backdrop_listeners e' = 3.
Proof.
  destruct (click_listeners_pile_up_without_escape sample "login" 0
              (mkModalElement "login" "none" true 0 0) false false 3
              eq_refl eq_refl eq_refl eq_refl) as (e' & He' & Hb & _).
  exists e'. split; [exact He' | exact Hb].
Defined.

End ModalSamples.

(** ** Chat content *)

Section ChatContent.

Import Chat.
Implicit Types (s text : jsstring) (u : N).

Lemma replace_unit_Forall (P Q : N -> Prop) c by_ text :
  Forall P by_ ->
  (forall u, u <> c -> Q u -> P u) ->
  Forall Q text ->
  Forall P (replace_unit c by_ text).
Proof.
  intros Hby Himp Htext. unfold replace_unit.
  induction Htext as [|u text Hu Htext IH]; simpl; [constructor|].
  apply Forall_app. split; [|exact IH].
  destruct (N.eqb_spec u c); [exact Hby|].
  constructor; [by apply Himp | constructor].
Qed.

Lemma replace_unit_absent c by_ text :
  Forall (fun u => u <> c) text -> replace_unit c by_ text = text.
Proof.
  unfold replace_unit.
  induction 1 as [|u text Hu Htext IH]; simpl; [done|].
  destruct (N.eqb_spec u c); [done|]. simpl. by rewrite IH.
Qed.

Lemma replace_unit_app c by_ s1 s2 :
  replace_unit c by_ (s1 ++ s2)
  = replace_unit c by_ s1 ++ replace_unit c by_ s2.
Proof. unfold replace_unit. apply flat_map_app. Qed.

(** After the three escapes no [<] and no [>] is left. *)
Lemma escaped_no_angle text :
  Forall (fun u => u <> lt /\ u <> gt)
    (replace_unit gt (units "&gt;")
       (replace_unit lt (units "&lt;")
          (replace_unit amp (units "&amp;") text))).
Proof.
  apply replace_unit_Forall with (Q := fun u => u <> lt).
  - repeat constructor; discriminate.
  - intros u Hgt Hlt. done.
  - apply replace_unit_Forall with (Q := fun _ => True).
    + repeat constructor; discriminate.
    + intros u Hlt _. done.
    + apply List.Forall_forall. done.
Qed.

Lemma lazy_run_Forall (P : N -> Prop) s : forall group,
  lazy_run s = Some group -> Forall P s -> Forall P group.
Proof.
  induction s as [|u rest IH]; intros group; simpl; [done|].
  destruct (line_terminator u); [done|].
  intros Hrun Hs. apply List.Forall_cons_iff in Hs as [Hu Hrest].
  destruct (starts_with_stars rest).
  - injection Hrun as <-. by constructor.
  - destruct (lazy_run rest) as [g|]; [|done]. injection Hrun as <-.
    constructor; [done | by apply IH].
Qed.

Lemma match_at_Forall (P : N -> Prop) s group :
  match_at s = Some group -> Forall P s -> Forall P group.
Proof.
  destruct s as [|a [|b rest]]; simpl; try done.
  destruct (_ && _); [|done]. intros Hrun Hs.
  apply (lazy_run_Forall P rest); [done|].
  apply List.Forall_cons_iff in Hs as [_ Hs].
  by apply List.Forall_cons_iff in Hs as [_ Hs].
Qed.

Lemma okt_app_plain group s :
  Forall (fun u => u <> lt /\ u <> gt) group ->
  only_known_tags s -> only_known_tags (group ++ s).
Proof.
  induction 1 as [|u group [Hlt Hgt] _ IH]; intros Hs; simpl; [done|].
  apply okt_unit; auto.
Qed.

Lemma bold_from_okt s : forall skip,
  Forall (fun u => u <> lt /\ u <> gt) s -> only_known_tags (bold_from skip s).
Proof.
  induction s as [|u rest IH]; intros skip Hs; [constructor|].
  pose proof Hs as Hall.
  apply List.Forall_cons_iff in Hs as [[Hlt Hgt] Hrest].
  cbn [bold_from]. destruct skip as [|k]; [|by apply IH].
  destruct (match_at (u :: rest)) as [group|] eqn:Hm.
  - apply okt_strong. apply okt_app_plain.
    + by apply (match_at_Forall _ _ _ Hm).
    + apply okt_strong_end. by apply IH.
  - apply okt_unit; auto.
Qed.

Lemma replace_br_okt s :
  only_known_tags s -> only_known_tags (replace_unit newline (units "<br>") s).
Proof.
  induction 1 as [|u s Hlt Hgt Hs IH|s Hs IH|s Hs IH|s Hs IH].
  - constructor.
  - change (u :: s) with ([u] ++ s). rewrite replace_unit_app.
    unfold replace_unit at 1. simpl.
    destruct (N.eqb_spec u newline).
    + rewrite app_nil_r. by apply okt_br.
    + simpl. by apply okt_unit.
  - rewrite replace_unit_app. by apply okt_strong.
  - rewrite replace_unit_app. by apply okt_strong_end.
  - rewrite replace_unit_app. by apply okt_br.
Qed.

(** Whatever the text, the markup [_formatContent] returns holds no tag but
    [<strong>], [</strong>] and [<br>]: every [<] and [>] of the text has
    been escaped. *)
Theorem formatContent_emits_known_tags_only text :
  only_known_tags (_formatContent text).
Proof.
  unfold _formatContent. apply replace_br_okt. unfold bold.
  apply bold_from_okt, escaped_no_angle.
Qed.

Lemma plain_spec u :
  plain u = true ->
  u <> amp /\ u <> lt /\ u <> gt /\ u <> star /\ u <> newline.
Proof.
  unfold plain. rewrite negb_true_iff, !orb_false_iff.
  intros ((((H1 & H2) & H3) & H4) & H5).
  repeat split; by apply N.eqb_neq.
Qed.

Lemma bold_no_star s :
  Forall (fun u => u <> star) s -> bold_from 0 s = s.
Proof.
  induction 1 as [|u rest Hu Hrest IH]; simpl; [done|].
  assert (Hm : match_at (u :: rest) = None).
  { destruct rest as [|b rest]; simpl; [done|].
    apply N.eqb_neq in Hu. by rewrite Hu. }
  simpl in Hm. rewrite Hm. by rewrite IH.
Qed.

(** Text without [&], [<], [>], [*] and line feed comes back as it is. *)
Theorem formatContent_keeps_plain_text text :
  Forall (fun u => plain u = true) text ->
  _formatContent text = text.
Proof.
  intros Hplain. unfold _formatContent, bold.
  assert (H : forall c, (forall u, plain u = true -> u <> c) ->
                        Forall (fun u => u <> c) text).
  { intros c Hc. eapply List.Forall_impl; [|exact Hplain]. exact Hc. }
  rewrite (replace_unit_absent amp) by (apply H; intros u Hu; by apply plain_spec).
  rewrite (replace_unit_absent lt) by (apply H; intros u Hu; by apply plain_spec).
  rewrite (replace_unit_absent gt) by (apply H; intros u Hu; by apply plain_spec).
  rewrite bold_no_star by (apply H; intros u Hu; by apply plain_spec).
  apply replace_unit_absent. apply H. intros u Hu. by apply plain_spec.
Qed.

Lemma lazy_run_marked group tail :
  group <> [] ->
  Forall (fun u => u <> star /\ line_terminator u = false) group ->
  lazy_run (group ++ star :: star :: tail) = Some group.
Proof.
  intros Hne Hgroup. induction Hgroup as [|u group [Hstar Hlt] Hrest IH]; [done|].
  simpl. rewrite Hlt.
  destruct group as [|v group]; simpl.
  - reflexivity.
  - apply List.Forall_cons_iff in Hrest as [[Hv _] _].
    assert (Hnot : starts_with_stars ((v :: group) ++ star :: star :: tail)
                   = false).
    { simpl. destruct (group ++ star :: star :: tail); [done|].
      apply N.eqb_neq in Hv. by rewrite Hv. }
    simpl in Hnot. rewrite Hnot.
    simpl in IH. by rewrite IH.
Qed.

Lemma bold_from_skip pre s : bold_from (length pre) (pre ++ s) = bold_from 0 s.
Proof.
  induction pre as [|u pre IH]; simpl; [done|]. exact IH.
Qed.

Lemma bold_prefix pre s :
  Forall (fun u => u <> star) pre ->
  bold_from 0 (pre ++ s) = pre ++ bold_from 0 s.
Proof.
  induction 1 as [|u pre Hu Hpre IH]; [done|].
  change ((u :: pre) ++ s) with (u :: (pre ++ s)). cbn [bold_from].
  assert (Hm : match_at (u :: pre ++ s) = None).
  { destruct (pre ++ s) as [|b rest]; simpl; [done|].
    apply N.eqb_neq in Hu. by rewrite Hu. }
  rewrite Hm. simpl. by rewrite IH.
Qed.

Lemma bold_match u rest group :
  match_at (u :: rest) = Some group ->
  bold_from 0 (u :: rest)
  = units "<strong>" ++ group ++ units "</strong>"
    ++ bold_from (length group + 3) rest.
Proof. intros Hm. cbn [bold_from]. by rewrite Hm. Qed.

(** A run between two pairs of stars comes back between [<strong>] and
    [</strong>], the text around it untouched: the run is not empty and
    holds no line terminator, and neither it nor the text around it holds a
    character that [_formatContent] rewrites. *)
Theorem formatContent_marks_bold pre group tail :
  group <> [] ->
  Forall (fun u => plain u = true /\ line_terminator u = false) group ->
  Forall (fun u => plain u = true) pre ->
  Forall (fun u => plain u = true) tail ->
  _formatContent (pre ++ units "**" ++ group ++ units "**" ++ tail)
  = pre ++ units "<strong>" ++ group ++ units "</strong>" ++ tail.
Proof.
  intros Hne Hgroup Hpre Htail.
  assert (Hgp : Forall (fun u => plain u = true) group).
  { eapply List.Forall_impl; [|exact Hgroup]. by intros u [H _]. }
  assert (Hin : forall c, c <> star -> (forall u, plain u = true -> u <> c) ->
            Forall (fun u => u <> c)
              (pre ++ units "**" ++ group ++ units "**" ++ tail)).
  { intros c Hc Himp.
    repeat (apply Forall_app; split);
      try (eapply List.Forall_impl; [|eassumption]; exact Himp);
      repeat constructor; by apply not_eq_sym. }
  unfold _formatContent.
  rewrite (replace_unit_absent amp)
    by (apply Hin; [done | intros u Hu; by apply plain_spec]).
  rewrite (replace_unit_absent lt)
    by (apply Hin; [done | intros u Hu; by apply plain_spec]).
  rewrite (replace_unit_absent gt)
    by (apply Hin; [done | intros u Hu; by apply plain_spec]).
  assert (Hbold : bold (pre ++ units "**" ++ group ++ units "**" ++ tail)
                  = pre ++ units "<strong>" ++ group ++ units "</strong>"
                    ++ tail).
  { unfold bold. rewrite bold_prefix
      by (eapply List.Forall_impl; [|exact Hpre];
          intros u Hu; by apply plain_spec).
    f_equal. change (units "**") with [star; star].
    change ([star; star] ++ group ++ [star; star] ++ tail)
      with (star :: star :: (group ++ star :: star :: tail)).
    assert (Hm : match_at (star :: star :: group ++ star :: star :: tail)
                 = Some group).
    { cbn [match_at]. rewrite N.eqb_refl. simpl andb. cbv iota.
      apply lazy_run_marked; [done|].
      eapply List.Forall_impl; [|exact Hgroup].
      intros u [Hu Hl]. split; [by apply plain_spec | done]. }
    rewrite (bold_match _ _ _ Hm). f_equal. f_equal. f_equal.
    change (star :: group ++ star :: star :: tail)
      with ((star :: group) ++ [star; star] ++ tail).
    rewrite app_assoc.
    replace (length group + 3)
      with (length ((star :: group) ++ [star; star]))
      by (rewrite length_app; simpl; lia).
    rewrite bold_from_skip. apply bold_no_star.
    eapply List.Forall_impl; [|exact Htail].
    intros u Hu. by apply plain_spec. }
  rewrite Hbold. apply replace_unit_absent.
  repeat (apply Forall_app; split);
    try (eapply List.Forall_impl; [|eassumption];
         intros u Hu; by apply plain_spec);
    repeat constructor; discriminate.
Qed.

End ChatContent.

Section ChatSamples.

Import Chat.

Example format_escapes_and_marks :
  _formatContent (units "x < y && **<b>** ** z**")
  = units "x &lt; y &amp;&amp; <strong>&lt;b&gt;</strong> <strong> z</strong>".
Proof. reflexivity. Qed.

Example format_empty_bold_is_kept : _formatContent (units "****") = units "****".
Proof. reflexivity. Qed.

Example format_lazy_match :
  _formatContent (units "**a**b**c**")
  = units "<strong>a</strong>b<strong>c</strong>".
Proof. reflexivity. Qed.

Example format_line_break :
  _formatContent (units "one" ++ [newline] ++ units "two")
  = units "one<br>two".
Proof. reflexivity. Qed.

Lemma formatContent_keeps_plain_text_witness :
  _formatContent (units "Hello, world!") = units "Hello, world!".
Proof.
  apply formatContent_keeps_plain_text.
  repeat constructor.
Defined.

Lemma formatContent_marks_bold_witness :
  _formatContent (units "a " ++ units "**" ++ units "very bold" ++ units "**"
                  ++ units "!")
  = units "a " ++ units "<strong>" ++ units "very bold" ++ units "</strong>"
    ++ units "!".
Proof.
  apply formatContent_marks_bold; [discriminate | | |];
    repeat constructor.
Defined.

End ChatSamples.

(** ** Chat rows *)

Section ChatRows.

Import Chat ChatBox.
Implicit Types (b : Box) (cs : list Child).

Lemma no_typing cs : existsb is_typing cs = false -> List.filter is_typing cs = [].
Proof.
  induction cs as [|c cs IH]; simpl; [done|].
  destruct (is_typing c); simpl; [done|]. exact IH.
Qed.

Lemma some_typing cs : existsb is_typing cs = true -> List.filter is_typing cs <> [].
Proof.
  induction cs as [|c cs IH]; simpl; [done|].
  destruct (is_typing c); simpl; [done|]. exact IH.
Qed.

Lemma remove_first_typing_count cs :
  length (List.filter is_typing (remove_first_typing cs))
  <= length (List.filter is_typing cs).
Proof.
  induction cs as [|c cs IH]; simpl; [lia|].
  destruct (is_typing c) eqn:Hc; simpl; [lia|]. by rewrite Hc.
Qed.

Lemma is_typing_indicator a : is_typing (TypingRow a) = true.
Proof. reflexivity. Qed.

Lemma is_row_message r a h : is_row (MessageRow r a h) = true.
Proof. reflexivity. Qed.

(** What matches [.htmx-r-chat-typing] among the children matches
    [.htmx-r-chat-row] too. *)
Lemma typing_is_row c : is_typing c = true -> is_row c = true.
Proof.
  destruct c as [r a h|a|tag]; intros H.
  - apply is_row_message.
  - reflexivity.
  - discriminate.
Qed.

Lemma remove_first_typing_last cs a :
  existsb is_typing cs = false ->
  remove_first_typing (cs ++ [TypingRow a]) = cs.
Proof.
  induction cs as [|c cs IH]; simpl.
  - done.
  - destruct (is_typing c); simpl; [done|]. intros H. by rewrite IH.
Qed.

Lemma typing_count_call c b :
  plain_roles [c] = true ->
  typing_count b <= 1 -> typing_count (apply_call c b) <= 1.
Proof.
  unfold typing_count, plain_roles. simpl. rewrite andb_true_r.
  intros Hc Hb.
  destruct c as [found o|found visible a|found|found smooth]; simpl.
  - unfold appendMessage, scrollToBottom. destruct found; simpl; [|done].
    rewrite List.filter_app. simpl.
    change (is_typing (MessageRow (default "user" (role o))
                         (if String.eqb (default "user" (role o)) "user"
                          then None
                          else Some (default robot (avatarText o)))
                         (_formatContent (default [] (content o)))))
      with (typing_role (default "user" (role o))).
    apply negb_true_iff in Hc. rewrite Hc. by rewrite app_nil_r.
  - unfold setTyping, scrollToBottom. destruct found; [|done].
    destruct visible; simpl.
    + destruct (existsb is_typing (children b)) eqn:Hex; [done|]. simpl.
      rewrite List.filter_app, (no_typing _ Hex). simpl.
      rewrite ?is_typing_indicator. simpl. lia.
    + destruct (existsb is_typing (children b)); [|done]. simpl.
      pose proof (remove_first_typing_count (children b)). lia.
  - unfold clearMessages. destruct found; [|done]. simpl. clear Hb.
    induction (children b) as [|x cs IH]; simpl; [lia|].
    destruct (is_row x) eqn:Hrow; simpl; [exact IH|].
    destruct (is_typing x) eqn:Htyping; [|exact IH].
    apply typing_is_row in Htyping. congruence.
  - unfold scrollToBottom. by destruct found.
Qed.

(** However the helpers are called, as long as no message is given a
    role that carries the class of the typing indicator, a container
    that holds at most one typing indicator never holds two; and showing
    the indicator while it is showing changes nothing. *)
Theorem typing_indicator_stays_single calls b found a1 a2 :
  plain_roles calls = true ->
  typing_count b <= 1 ->
  typing_count (apply_calls calls b) <= 1
  /\ setTyping found true a2 (setTyping found true a1 b)
     = setTyping found true a1 b.
Proof.
  intros Hplain Hb. split.
  - revert b Hb Hplain.
    induction calls as [|c calls IH]; intros b Hb Hplain; simpl; [done|].
    unfold plain_roles in Hplain. simpl in Hplain.
    apply andb_true_iff in Hplain as [Hc Hplain].
    apply IH; [|exact Hplain]. apply typing_count_call; [|exact Hb].
    unfold plain_roles. simpl. by rewrite Hc.
  - unfold setTyping, scrollToBottom. destruct found; [|done]. simpl.
    destruct (existsb is_typing (children b)) eqn:Hex; simpl.
    + by rewrite Hex.
    + rewrite existsb_app. simpl.
      by rewrite ?is_typing_indicator, ?orb_true_r.
Qed.

(** Showing the typing indicator in a container in which nothing matches
    the class of the indicator and hiding it again gives the children
    back exactly; what stays is one scroll command and the bounce style
    in the document. *)
Theorem typing_show_hide_round_trip b a1 a2 :
  typing_count b = 0 ->
  let b' := setTyping true false a2 (setTyping true true a1 b) in
  children b' = children b
  /\ scrollCmds b' = scrollCmds b ++ ["smooth"]
  /\ bounce_style b' = true.
Proof.
  unfold typing_count. intros Hb.
  assert (Hex : existsb is_typing (children b) = false).
  { destruct (existsb is_typing (children b)) eqn:Hex; [|done].
    apply some_typing in Hex. destruct (List.filter _ _); done. }
  unfold setTyping, scrollToBottom. simpl. rewrite Hex. simpl.
  rewrite existsb_app. simpl. rewrite ?is_typing_indicator, ?orb_true_r.
  simpl. by rewrite remove_first_typing_last.
Qed.

Lemma bubble_ok_call c b :
  Forall bubble_ok (children b) -> Forall bubble_ok (children (apply_call c b)).
Proof.
  intros Hb. destruct c as [found o|found visible a|found|found smooth]; simpl.
  - unfold appendMessage, scrollToBottom. destruct found; simpl; [|done].
    apply Forall_app. split; [done|]. constructor; [|constructor]. simpl.
    unfold _formatContent, bold.
    apply replace_br_okt, bold_from_okt, escaped_no_angle.
  - unfold setTyping, scrollToBottom. destruct found; [|done].
    destruct visible; simpl.
    + destruct (existsb is_typing (children b)); [done|]. simpl.
      apply Forall_app. split; [done|]. by repeat constructor.
    + destruct (existsb is_typing (children b)); [|done]. simpl.
      induction Hb as [|x cs Hx Hcs IH]; simpl; [constructor|].
      destruct (is_typing x); [done|]. by constructor.
  - unfold clearMessages. destruct found; [|done]. simpl.
    induction Hb as [|x cs Hx Hcs IH]; simpl; [constructor|].
    destruct (is_row x); simpl; [done | by constructor].
  - unfold scrollToBottom. by destruct found.
Qed.

(** In a container the helpers have filled from empty, the markup of every
    message bubble holds no tag but [<strong>], [</strong>] and [<br>],
    whatever the contents passed to [appendMessage]. *)
Theorem bubbles_hold_known_tags_only calls :
  Forall bubble_ok (children (apply_calls calls (mkBox [] [] false 0))).
Proof.
  assert (H : forall b, Forall bubble_ok (children b) ->
                        Forall bubble_ok (children (apply_calls calls b))).
  { induction calls as [|c calls IH]; intros b Hb; simpl; [done|].
    apply IH. by apply bubble_ok_call. }
  apply H. constructor.
Qed.

(** A role with the class of the typing indicator in it: the message
    row is taken for the indicator, so that showing the indicator adds
    nothing and hiding it takes the first such message away. *)
Example typing_class_in_role :
  let o := mkMessageOptions (Some "assistant htmx-r-chat-typing")
             (Some (units "hi")) None None in
  let b := apply_calls [AppendMessage true o; AppendMessage true o]
             (mkBox [] [] false 0) in
  typing_count b = 2
  /\ setTyping true true None b = b
  /\ length (children (setTyping true false None b)) = 1.
Proof. vm_compute. repeat split. Qed.

Lemma typing_indicator_stays_single_witness :
  let b := mkBox [Foreign "header"] [] false 0 in
  let calls := [SetTyping true true None;
                AppendMessage true
                  (mkMessageOptions (Some "assistant")
                     (Some (units "**hi**")) None None);
                SetTyping true true (Some (units "AI"))] in
  plain_roles calls = true
  /\ typing_count b <= 1
  /\ typing_count (apply_calls calls b) <= 1.
Proof.
  intros b calls.
  assert (Hplain : plain_roles calls = true) by reflexivity.
  assert (Hb : typing_count b <= 1) by (vm_compute; lia).
  split; [exact Hplain|]. split; [exact Hb|].
  by destruct (typing_indicator_stays_single calls b true None None
                 Hplain Hb) as [Hcount _].
Defined.

Lemma typing_show_hide_round_trip_witness :
  let b := mkBox [Foreign "header"; MessageRow "user" None (units "hello")]
             [] false 0 in
  typing_count b = 0
  /\ children (setTyping true false None (setTyping true true None b))
     = children b.
Proof.
  intros b. split; [reflexivity|].
  by destruct (typing_show_hide_round_trip b None None eq_refl) as [Hc _].
Defined.

End ChatRows.

(** ** Toast notifications *)

Section ToastFacts.

Import Toast.
Implicit Types (s : State) (cs : list (string * list ToastEl)).





Lemma getContainer_spec pos s :
  let s' := _getContainer pos s in
  defaults s' = defaults s /\ next_toast s' = next_toast s
  /\ timers s' = timers s /\ dismissed s' = dismissed s
  /\ (exists ts, lookup_container pos (containers s') = Some ts
                 /\ (lookup_container pos (containers s) = Some ts
                     \/ (lookup_container pos (containers s) = None /\ ts = [])))
  /\ (containers s' = containers s \/ containers s' = containers s ++ [(pos, [])]).
Proof.
  unfold _getContainer.
  destruct (lookup_container pos (containers s)) as [ts|] eqn:Hl; simpl.
  - repeat split; auto. exists ts. auto.
  - repeat split; auto. exists []. split; [|auto].
    induction (containers s) as [|[p ts] cs IH]; simpl in *.
    + by rewrite String.eqb_refl.
    + destruct (String.eqb p pos); [done | by apply IH].
Qed.





(** With [maxVisible] at zero or below, [show] on a position whose
    container is empty or not yet there throws a TypeError: the container
    is there afterwards, and no toast and no timer has been added. *)
Theorem show_throws_when_maxVisible_not_positive msg options s :
  (maxVisible (defaults s) <= 0)%Z ->
  let pos := default (position (defaults s)) (o_position options) in
  lookup_container pos (containers s) = None
  \/ lookup_container pos (containers s) = Some [] ->
  exists s',
    show msg options s = Throw TypeError s'
    /\ lookup_container pos (containers s') = Some []
    /\ next_toast s' = next_toast s /\ timers s' = timers s.
Proof.
  intros Hmax pos Hempty. unfold show. fold pos.
  destruct (getContainer_spec pos s)
    as (Hd & Hn & Ht & _ & (ts & Hl & Hwas) & _).
  set (s1 := _getContainer pos s) in *.
  assert (Hnil : ts = []).
  { destruct Hwas as [Hsome|[_ ->]]; [|done].
    destruct Hempty as [Hnone|Hs]; congruence. }
  subst ts. rewrite Hl, Hd. simpl.
  change (Z.of_nat 0) with 0%Z.
  destruct (Z.leb_spec (maxVisible (defaults s)) 0); [|lia]. simpl.
  exists s1. split; [reflexivity|]. split; [exact Hl|]. split; assumption.
Qed.

(** *** Toasts that are off the page *)

Lemma attached_update toast pos f cs :
  existsb (fun c => existsb (fun t => Nat.eqb (toast_id t) toast) (snd c)) cs
  = false ->
  (forall ts, existsb (fun t => Nat.eqb (toast_id t) toast) ts = false ->
              existsb (fun t => Nat.eqb (toast_id t) toast) (f ts) = false) ->
  existsb (fun c => existsb (fun t => Nat.eqb (toast_id t) toast) (snd c))
    (update_container pos f cs) = false.
Proof.
  intros Hcs Hf. induction cs as [|[p ts] cs IH]; simpl in *; [done|].
  apply orb_false_iff in Hcs as [Hts Hcs].
  destruct (String.eqb p pos); simpl.
  - by rewrite Hf, Hcs.
  - by rewrite Hts, IH.
Qed.

Lemma attached_remove toast other cs :
  existsb (fun c => existsb (fun t => Nat.eqb (toast_id t) toast) (snd c)) cs
  = false ->
  existsb (fun c => existsb (fun t => Nat.eqb (toast_id t) toast) (snd c))
    (remove_toast other cs) = false.
Proof.
  intros Hcs. induction cs as [|[p ts] cs IH]; simpl in *; [done|].
  apply orb_false_iff in Hcs as [Hts Hcs]. rewrite IH by done.
  rewrite orb_false_r.
  clear -Hts. induction ts as [|x ts IHts]; simpl in *; [done|].
  apply orb_false_iff in Hts as [Hx Hts].
  destruct (negb (Nat.eqb (toast_id x) other)); simpl; [|by apply IHts].
  by rewrite Hx, IHts.
Qed.

Lemma find_detached toast cs :
  existsb (fun c => existsb (fun t => Nat.eqb (toast_id t) toast) (snd c)) cs
  = false ->
  List.find (fun t => Nat.eqb (toast_id t) toast) (concat (map snd cs)) = None.
Proof.
  intros Hcs. induction cs as [|[p ts] cs IH]; simpl in *; [done|].
  apply orb_false_iff in Hcs as [Hts Hcs].
  induction ts as [|x ts IHts]; simpl in *; [by apply IH|].
  apply orb_false_iff in Hts as [Hx Hts]. rewrite Hx. by apply IHts.
Qed.

Lemma drop1_detached toast (ts : list ToastEl) :
  existsb (fun t => Nat.eqb (toast_id t) toast) ts = false ->
  existsb (fun t => Nat.eqb (toast_id t) toast) (drop 1 ts) = false.
Proof.
  destruct ts as [|x ts]; simpl; [done|]. rewrite drop_0.
  intros H. by apply orb_false_iff in H as [_ H].
Qed.

Lemma gone_dismiss toast other cb s :
  gone toast s ->
  gone toast (_dismiss other cb s)
  /\ dismissed (_dismiss other cb s) = dismissed s.
Proof.
  intros (Hatt & Hrem & Hlt). unfold _dismiss.
  destruct (attached other s) eqn:Hother; [|done].
  split; [|done]. split; [done|]. split; [|done].
  simpl. intros cb' Hin. apply in_app_iff in Hin as [Hin|[Heq|[]]].
  - by apply (Hrem cb').
  - injection Heq as -> _. congruence.
Qed.

Lemma gone_show toast msg options s :
  gone toast s ->
  gone toast (state_of (show msg options s))
  /\ dismissed (state_of (show msg options s)) = dismissed s.
Proof.
  intros (Hatt & Hrem & Hlt). unfold show.
  set (pos := default (position (defaults s)) (o_position options)).
  destruct (getContainer_spec pos s) as (_ & Hn & Ht & Hdis & _ & Hcs).
  set (s1 := _getContainer pos s) in *.
  assert (H1 : attached toast s1 = false).
  { unfold attached in *. destruct Hcs as [-> | ->]; [done|].
    rewrite existsb_app, Hatt. reflexivity. }
  assert (Hnew : forall ts,
            existsb (fun t => Nat.eqb (toast_id t) toast) ts = false ->
            existsb (fun t => Nat.eqb (toast_id t) toast)
              (ts ++ [mkToastEl (next_toast s1)
                        (default "info" (o_type options)) (o_title options)
                        msg (o_onDismiss options)]) = false).
  { intros ts Hts. rewrite existsb_app, Hts. simpl.
    rewrite orb_false_r. apply Nat.eqb_neq. lia. }
  assert (Hauto : forall cb id,
            ~ In (Removal toast cb) (timers s1 ++ [AutoDismiss id
                                                     (o_onDismiss options)])).
  { intros cb id Hin. apply in_app_iff in Hin as [Hin|[Heq|[]]]; [|done].
    rewrite Ht in Hin. by apply (Hrem cb). }
  assert (Hrem1 : forall cb, ~ In (Removal toast cb) (timers s1))
    by (intros cb; rewrite Ht; apply Hrem).
  unfold gone, attached in *.
  destruct (_ <=? _)%Z;
    [destruct (default [] (lookup_container pos (containers s1)))|];
    simpl;
    try (destruct (0 <? default (duration (defaults s)) (o_duration options))%Z;
         simpl);
    repeat split; auto; try lia;
    repeat (apply attached_update; auto using drop1_detached).
Qed.

Lemma gone_step toast e s :
  gone toast s ->
  gone toast (step e s)
  /\ List.filter (Nat.eqb toast) (dismissed (step e s))
     = List.filter (Nat.eqb toast) (dismissed s).
Proof.
  intros Hgone. destruct e as [msg o|o|other|i]; simpl.
  - destruct (gone_show toast msg o s Hgone) as [Hg ->]. done.
  - done.
  - unfold click_close.
    destruct (List.find _ _) as [t|]; [|done].
    destruct (gone_dismiss toast other (has_onDismiss t) s Hgone) as [Hg ->].
    done.
  - destruct (timers s !! i) as [tm|] eqn:Hi; [|done].
    assert (Hin : In tm (timers s)).
    { apply list_elem_of_In. by apply list_elem_of_lookup_2 with i. }
    destruct Hgone as (Hatt & Hrem & Hlt).
    assert (Hmid : gone toast
                     (mkState (defaults s) (containers s) (next_toast s)
                        (delete i (timers s)) (dismissed s))).
    { split; [done|]. split; [|done]. simpl. intros cb Hd.
      apply (Hrem cb). apply list_elem_of_In.
      apply list_elem_of_In in Hd.
      by apply list_elem_of_delete_inv in Hd. }
    destruct tm as [other cb|other cb]; simpl.
    + destruct (gone_dismiss toast other cb _ Hmid) as [Hg ->]. done.
    + assert (Hne : other <> toast).
      { intros ->. by apply (Hrem cb). }
      destruct Hmid as (Hatt' & Hrem' & Hlt'). split.
      * split; [|split; [exact Hrem' | exact Hlt']].
        unfold attached in *. simpl. by apply attached_remove.
      * destruct cb; [|done]. rewrite List.filter_app. simpl.
        destruct (Nat.eqb_spec toast other); [congruence|].
        by rewrite app_nil_r.
Qed.

(** A toast that is off the page with no removal pending, such as a toast
    evicted from a full container, never has its [onDismiss] callback
    invoked, even if its auto-dismiss timer is still pending. *)
Theorem detached_toast_never_dismissed toast s es :
  attached toast s = false ->
  (forall cb, ~ In (Removal toast cb) (timers s)) ->
  toast < next_toast s ->
  List.filter (Nat.eqb toast) (dismissed (run es s))
  = List.filter (Nat.eqb toast) (dismissed s)
  /\ attached toast (run es s) = false.
Proof.
  intros Hatt Hrem Hlt.
  assert (Hgone : gone toast s) by (split; [|split]; assumption).
  clear Hatt Hrem Hlt. revert s Hgone.
  induction es as [|e es IH]; intros s Hgone; simpl.
  - split; [done|]. by destruct Hgone.
  - destruct (gone_step toast e s Hgone) as [Hg Hd].
    destruct (IH _ Hg) as [Hd' Ha']. split; [|exact Ha']. congruence.
Qed.

End ToastFacts.

Section ToastSamples.

Import Toast.

Local Abbreviation notify := (Show "Saved" (mkShowOptions None None None None true)).

Example sixth_toast_evicts_first :
  let s := run [notify; notify; notify; notify; notify; notify] init in
  option_map (map toast_id) (lookup_container "bottom-right" (containers s))
  = Some [1; 2; 3; 4; 5]
  /\ length (timers s) = 6.
Proof. split; reflexivity. Qed.

Example double_click_dismisses_twice :
  let s := run [notify; ClickClose 0; ClickClose 0; Fire 1; Fire 1] init in
  dismissed s = [0; 0].
Proof. reflexivity. Qed.


Lemma show_throws_when_maxVisible_not_positive_witness :
  let s := configure (mkConfigureOptions None None (Some 0%Z)) init in
  exists s', show "Saved" (mkShowOptions None None None None false) s
             = Throw TypeError s'
             /\ next_toast s' = 0.
Proof.
  intros s.
  destruct (show_throws_when_maxVisible_not_positive "Saved"
              (mkShowOptions None None None None false) s)
    as (s' & Hshow & _ & Hn & _).
  - simpl. lia.
  - by left.
  - exists s'. split; [exact Hshow | exact Hn].
Defined.

Lemma detached_toast_never_dismissed_witness :
  let s := run [notify; notify; notify; notify; notify; notify] init in
  attached 0 s = false
  /\ timers s !! 0 = Some (AutoDismiss 0 true)
  /\ List.filter (Nat.eqb 0)
       (dismissed (run [Fire 0; ClickClose 0; Fire 0; Fire 4] s)) = [].
Proof.
  intros s.
  destruct (detached_toast_never_dismissed 0 s
              [Fire 0; ClickClose 0; Fire 0; Fire 4]) as [Hnever _].
  - reflexivity.
  - intros cb Hin. simpl in Hin.
    repeat (destruct Hin as [Hin|Hin]; [discriminate|]). done.
  - vm_compute. lia.
  - split; [reflexivity|]. split; [reflexivity|]. exact Hnever.
Defined.

End ToastSamples.
